(** * A to-do list in the browser: the task store of [script.js]

    The program is one class, [TodoApp], whose methods are the handlers of
    a page: they read what the user typed, update the array [this.tasks],
    write the array to [localStorage] as JSON and redraw the list.  This
    file embeds those methods as functions on a record [World] (the fields
    of the [TodoApp] object together with the parts of the page they read
    and write), with the library functions they call ([String.prototype.trim],
    [JSON.stringify], [JSON.parse], [Date.prototype.toISOString] and the
    [Date] constructor) written out over lists of UTF-16 code units.

    What the model leaves out: the markup that [render] writes (the
    list is kept as the tasks it shows), the focus and the classes of
    the filter buttons, the quota of the storage ([setItem] succeeds),
    and pages that lack the elements the methods look up.  What a user
    answers to [confirm] and what the clock reads are arguments of the
    methods that ask for them.

    Layout: the model comes first (strings, dates, JSON, then the class),
    the lemmas about the library functions next, the properties of the
    task store last. *)

From Stdlib Require Import ZArith NArith List Bool Lia String Ascii Decimal.
From Stdlib Require Import DecimalFacts DecimalPos DecimalN.
Import ListNotations.

Set Warnings "-register-all".
Local Open Scope Z_scope.

(* ================================================================== *)
(** * Part I: the model *)
(* ================================================================== *)

(** ** JavaScript strings

    A JavaScript string is a sequence of 16-bit code units, and [length]
    counts code units.  Code units are kept as [N]; nothing below depends
    on their being smaller than 65536. *)

Definition char16 := N.
Definition jsstring := list char16.

(** A string literal of the source, given by its ASCII text. *)
Definition js (s : string) : jsstring :=
  List.map N_of_ascii (list_ascii_of_string s).

Definition is_empty (s : jsstring) : bool :=
  match s with [] => true | _ :: _ => false end.

Fixpoint jsstring_eqb (a b : jsstring) : bool :=
  match a, b with
  | [], [] => true
  | x :: a', y :: b' => N.eqb x y && jsstring_eqb a' b'
  | _, _ => false
  end.

(** [WhiteSpace] and [LineTerminator] of ECMAScript: what [trim] strips.
    TAB, LF, VT, FF, CR, SP, NBSP, OGHAM SPACE MARK, EN QUAD .. HAIR SPACE,
    LS, PS, NNBSP, MMSP, IDEOGRAPHIC SPACE, ZWNBSP. *)
Definition is_white_space (c : char16) : bool :=
  ((9 <=? c) && (c <=? 13) || (c =? 32) || (c =? 160) || (c =? 5760)
   || (8192 <=? c) && (c <=? 8202) || (c =? 8232) || (c =? 8233)
   || (c =? 8239) || (c =? 8287) || (c =? 12288) || (c =? 65279))%N.

Fixpoint trimStart (s : jsstring) : jsstring :=
  match s with
  | c :: r => if is_white_space c then trimStart r else s
  | [] => []
  end.

Definition trimEnd (s : jsstring) : jsstring :=
  List.rev (trimStart (List.rev s)).

(** [String.prototype.trim] *)
Definition trim (s : jsstring) : jsstring := trimEnd (trimStart s).

(** ** Digits *)

Definition digit_char (d : Z) : char16 := Z.to_N (48 + d).

Definition is_digit (c : char16) : bool := ((48 <=? c) && (c <=? 57))%N.

Definition digit_val (c : char16) : Z := Z.of_N c - 48.

(** [n] written with exactly [width] decimal digits (the low ones). *)
Fixpoint pad (width : nat) (n : Z) : jsstring :=
  match width with
  | O => []
  | S w => pad w (n / 10) ++ [digit_char (n mod 10)]
  end.

(** Reads exactly [width] decimal digits, most significant first. *)
Fixpoint read_digits (width : nat) (acc : Z) (s : jsstring)
  : option (Z * jsstring) :=
  match width with
  | O => Some (acc, s)
  | S w =>
      match s with
      | c :: r =>
          if is_digit c then read_digits w (10 * acc + digit_val c) r
          else None
      | [] => None
      end
  end.

(** The digits of a [Decimal.uint] as code units, and back: the longest
    run of digits at the head of a string. *)
Fixpoint uint_chars (d : uint) : jsstring :=
  match d with
  | Nil => []
  | D0 d => 48%N :: uint_chars d
  | D1 d => 49%N :: uint_chars d
  | D2 d => 50%N :: uint_chars d
  | D3 d => 51%N :: uint_chars d
  | D4 d => 52%N :: uint_chars d
  | D5 d => 53%N :: uint_chars d
  | D6 d => 54%N :: uint_chars d
  | D7 d => 55%N :: uint_chars d
  | D8 d => 56%N :: uint_chars d
  | D9 d => 57%N :: uint_chars d
  end.

Definition digit_cons (c : char16) (d : uint) : uint :=
  if (c =? 48)%N then D0 d else if (c =? 49)%N then D1 d
  else if (c =? 50)%N then D2 d else if (c =? 51)%N then D3 d
  else if (c =? 52)%N then D4 d else if (c =? 53)%N then D5 d
  else if (c =? 54)%N then D6 d else if (c =? 55)%N then D7 d
  else if (c =? 56)%N then D8 d else D9 d.

Fixpoint span_digits (s : jsstring) : uint * jsstring :=
  match s with
  | c :: r =>
      if is_digit c
      then let (d, rest) := span_digits r in (digit_cons c d, rest)
      else (Nil, s)
  | [] => (Nil, [])
  end.

(** [Number::toString] of an integer (of magnitude below 10^21, where
    JavaScript switches to exponent notation). *)
Definition integer_toString (n : Z) : jsstring :=
  match n with
  | Z0 => [48%N]
  | Zpos p => uint_chars (Pos.to_uint p)
  | Zneg p => 45%N :: uint_chars (Pos.to_uint p)
  end.

(** A character of the source text as a code unit. *)
Definition ch (a : ascii) : char16 := N_of_ascii a.

Definition expect (c : char16) (s : jsstring) : option jsstring :=
  match s with
  | x :: r => if (x =? c)%N then Some r else None
  | [] => None
  end.

Notation "x <- e ;; k" :=
  (match e with Some x => k | None => None end)
  (at level 61, e at next level, right associativity, only parsing).
Notation "' p <- e ;; k" :=
  (match e with Some p => k | None => None end)
  (at level 61, p pattern, e at next level, right associativity,
   only parsing).

(** ** Dates

    A [Date] object holds a time value: a whole number of milliseconds
    since 1970-01-01T00:00:00Z, at most 8.64e15 in magnitude, or NaN
    (an invalid date). *)

Inductive Date : Type :=
| InvalidDate
| DateAt (t : Z).

Definition maxTime : Z := 8640000000000000.
Definition msPerDay : Z := 86400000.

Definition valid_time (t : Z) : bool := (- maxTime <=? t) && (t <=? maxTime).

(** [TimeClip] on an integer. *)
Definition TimeClip (t : Z) : Date :=
  if valid_time t then DateAt t else InvalidDate.

Definition Day (t : Z) : Z := t / msPerDay.
Definition TimeWithinDay (t : Z) : Z := t mod msPerDay.

(** Year, month (1..12) and day of the month of a day number, in the
    proleptic Gregorian calendar that [YearFromTime], [MonthFromTime] and
    [DateFromTime] describe.  Days are counted in 400-year eras of 146097
    days that begin on 1 March. *)
Definition civil_from_days (z : Z) : Z * Z * Z :=
  let z := z + 719468 in
  let era := z / 146097 in
  let doe := z mod 146097 in
  let yoe := (doe - doe / 1460 + doe / 36524 - doe / 146096) / 365 in
  let doy := doe - (365 * yoe + yoe / 4 - yoe / 100) in
  let mp := (5 * doy + 2) / 153 in
  let d := doy - (153 * mp + 2) / 5 + 1 in
  let m := if mp <? 10 then mp + 3 else mp - 9 in
  let y := yoe + era * 400 in
  (if m <=? 2 then y + 1 else y, m, d).

(** [MakeDay], for a month counted from 1. *)
Definition days_from_civil (y m d : Z) : Z :=
  let y := if m <=? 2 then y - 1 else y in
  let era := y / 400 in
  let yoe := y mod 400 in
  let doy := (153 * (if 2 <? m then m - 3 else m + 9) + 2) / 5 + d - 1 in
  let doe := yoe * 365 + yoe / 4 - yoe / 100 + doy in
  era * 146097 + doe - 719468.

Definition is_leap (y : Z) : bool :=
  (y mod 4 =? 0) && (negb (y mod 100 =? 0) || (y mod 400 =? 0)).

Definition days_in_month (y m : Z) : Z :=
  if m =? 2 then (if is_leap y then 29 else 28)
  else if (m =? 4) || (m =? 6) || (m =? 9) || (m =? 11) then 30
  else 31.

(** The year of the date-time format: four digits from 0000 to 9999,
    otherwise a sign and six digits. *)
Definition year_chars (y : Z) : jsstring :=
  if (0 <=? y) && (y <=? 9999) then pad 4 y
  else (if y <? 0 then ch "-" else ch "+") :: pad 6 (Z.abs y).

(** [Date.prototype.toISOString] of a valid time value:
    YYYY-MM-DDTHH:mm:ss.sssZ *)
Definition toISOString (t : Z) : jsstring :=
  let '(y, m, d) := civil_from_days (Day t) in
  let w := TimeWithinDay t in
  year_chars y ++ ch "-" :: pad 2 m ++ ch "-" :: pad 2 d
    ++ ch "T" :: pad 2 (w / 3600000)
    ++ ch ":" :: pad 2 (w / 60000 mod 60)
    ++ ch ":" :: pad 2 (w / 1000 mod 60)
    ++ ch "." :: pad 3 (w mod 1000)
    ++ [ch "Z"].

Definition parse_year (s : jsstring) : option (Z * jsstring) :=
  match s with
  | c :: r =>
      if (c =? ch "+")%N then read_digits 6 0 r
      else if (c =? ch "-")%N then
        '(y, r') <- read_digits 6 0 r ;;
        if y =? 0 then None else Some (- y, r')
      else read_digits 4 0 s
  | [] => None
  end.

(** [Date.parse] on the strings of the format above, the one
    [toISOString] writes: the complete form, in UTC, with every field in
    range.  [None] stands for every other string: what [Date.parse] makes
    of those is left to the implementation or depends on the local time
    zone, and is not modelled. *)
Definition Date_parse (s : jsstring) : option Z :=
  '(y, s) <- parse_year s ;;
  s <- expect (ch "-") s ;;
  '(m, s) <- read_digits 2 0 s ;;
  s <- expect (ch "-") s ;;
  '(d, s) <- read_digits 2 0 s ;;
  s <- expect (ch "T") s ;;
  '(h, s) <- read_digits 2 0 s ;;
  s <- expect (ch ":") s ;;
  '(mi, s) <- read_digits 2 0 s ;;
  s <- expect (ch ":") s ;;
  '(sec, s) <- read_digits 2 0 s ;;
  s <- expect (ch ".") s ;;
  '(ms, s) <- read_digits 3 0 s ;;
  s <- expect (ch "Z") s ;;
  if is_empty s
     && (1 <=? m) && (m <=? 12) && (1 <=? d) && (d <=? days_in_month y m)
     && (h <=? 23) && (mi <=? 59) && (sec <=? 59)
  then
    let t := days_from_civil y m d * msPerDay
             + h * 3600000 + mi * 60000 + sec * 1000 + ms in
    if valid_time t then Some t else None
  else None.


(** ** JSON text

    [JSON.stringify] is applied by the program to an array of objects whose
    properties are a number, a string, a boolean and a [Date]; [jsval] is
    the type of such values.  Numbers are integers: that is what
    [Date.now()] returns. *)

Inductive jsval : Type :=
| VNumber (n : Z)
| VString (s : jsstring)
| VBoolean (b : bool)
| VDate (d : Date)
| VArray (items : list jsval)
| VObject (props : list (jsstring * jsval)).

Definition hex_char (d : N) : char16 :=
  (if d <? 10 then 48 + d else 87 + d)%N.

(** The escape [\uXXXX] of a code unit, in lower-case hexadecimal. *)
Definition uescape (c : char16) : jsstring :=
  [ch "\"; ch "u"; hex_char (c / 4096 mod 16); hex_char (c / 256 mod 16);
   hex_char (c / 16 mod 16); hex_char (c mod 16)]%N.

Definition is_high_surrogate (c : char16) : bool :=
  ((55296 <=? c) && (c <=? 56319))%N.
Definition is_low_surrogate (c : char16) : bool :=
  ((56320 <=? c) && (c <=? 57343))%N.

(** The body of [QuoteJSONString]: the two-character escapes, [\u] escapes
    for the other control characters and for surrogates that have no
    partner, every other code unit as it is. *)
Fixpoint quote_chars (s : jsstring) : jsstring :=
  match s with
  | [] => []
  | c :: r =>
      if (c =? 8)%N then ch "\" :: ch "b" :: quote_chars r
      else if (c =? 9)%N then ch "\" :: ch "t" :: quote_chars r
      else if (c =? 10)%N then ch "\" :: ch "n" :: quote_chars r
      else if (c =? 12)%N then ch "\" :: ch "f" :: quote_chars r
      else if (c =? 13)%N then ch "\" :: ch "r" :: quote_chars r
      else if (c =? 34)%N then ch "\" :: 34%N :: quote_chars r
      else if (c =? 92)%N then ch "\" :: ch "\" :: quote_chars r
      else if (c <? 32)%N then uescape c ++ quote_chars r
      else if is_high_surrogate c then
        match r with
        | d :: r' =>
            if is_low_surrogate d then c :: d :: quote_chars r'
            else uescape c ++ quote_chars r
        | [] => uescape c
        end
      else if is_low_surrogate c then uescape c ++ quote_chars r
      else c :: quote_chars r
  end.

Definition QuoteJSONString (s : jsstring) : jsstring :=
  34%N :: quote_chars s ++ [34%N].

Fixpoint join_commas (parts : list jsstring) : jsstring :=
  match parts with
  | [] => []
  | p :: rest =>
      match rest with
      | [] => p
      | _ :: _ => p ++ ch "," :: join_commas rest
      end
  end.

(** [JSON.stringify] without indentation.  A [Date] is written through
    its [toJSON]: the ISO string, or [null] when the date is invalid. *)
Fixpoint JSON_stringify (v : jsval) : jsstring :=
  match v with
  | VNumber n => integer_toString n
  | VString s => QuoteJSONString s
  | VBoolean b => if b then js "true" else js "false"
  | VDate InvalidDate => js "null"
  | VDate (DateAt t) => QuoteJSONString (toISOString t)
  | VArray items =>
      ch "[" :: join_commas (List.map JSON_stringify items) ++ [ch "]"]
  | VObject props =>
      ch "{"
        :: join_commas
             (List.map
                (fun kv => QuoteJSONString (fst kv)
                             ++ ch ":" :: JSON_stringify (snd kv))
                props)
        ++ [ch "}"]
  end.

(** What [JSON.parse] builds.  A number is kept as the decimal it was
    written as, [JNum m e] standing for m * 10^e; the members of an object
    are kept in the order of the text. *)
Inductive json : Type :=
| JNull
| JBool (b : bool)
| JNum (m e : Z)
| JStr (s : jsstring)
| JArr (items : list json)
| JObj (members : list (jsstring * json)).

Definition is_json_ws (c : char16) : bool :=
  ((c =? 32) || (c =? 9) || (c =? 10) || (c =? 13))%N.

Fixpoint skip_ws (s : jsstring) : jsstring :=
  match s with
  | c :: r => if is_json_ws c then skip_ws r else s
  | [] => []
  end.

Fixpoint starts_with (p s : jsstring) : option jsstring :=
  match p with
  | [] => Some s
  | x :: p' =>
      match s with
      | y :: s' => if (x =? y)%N then starts_with p' s' else None
      | [] => None
      end
  end.

Definition hex_val (c : char16) : option N :=
  (if (48 <=? c) && (c <=? 57) then Some (c - 48)
   else if (97 <=? c) && (c <=? 102) then Some (c - 87)
   else if (65 <=? c) && (c <=? 70) then Some (c - 55)
   else None)%N.

Definition hex4 (a b c d : char16) : option char16 :=
  x <- hex_val a ;; y <- hex_val b ;; z <- hex_val c ;; w <- hex_val d ;;
  Some (4096 * x + 256 * y + 16 * z + w)%N.

Definition simple_escape (e : char16) : option char16 :=
  (if e =? 34 then Some 34 else if e =? 92 then Some 92
   else if e =? 47 then Some 47 else if e =? ch "b" then Some 8
   else if e =? ch "f" then Some 12 else if e =? ch "n" then Some 10
   else if e =? ch "r" then Some 13 else if e =? ch "t" then Some 9
   else None)%N.

(** The characters of a string literal after its opening quote, up to
    and including the closing quote. *)
Fixpoint parse_string_chars (s : jsstring) : option (jsstring * jsstring) :=
  match s with
  | [] => None
  | c :: r =>
      if (c =? 34)%N then Some ([], r)
      else if (c =? 92)%N then
        match r with
        | e :: r1 =>
            if (e =? ch "u")%N then
              match r1 with
              | h1 :: h2 :: h3 :: h4 :: r2 =>
                  u <- hex4 h1 h2 h3 h4 ;;
                  '(body, rest) <- parse_string_chars r2 ;;
                  Some (u :: body, rest)
              | _ => None
              end
            else
              x <- simple_escape e ;;
              '(body, rest) <- parse_string_chars r1 ;;
              Some (x :: body, rest)
        | [] => None
        end
      else if (c <? 32)%N then None
      else
        '(body, rest) <- parse_string_chars r ;;
        Some (c :: body, rest)
  end.

(** A JSON number: [-]? int frac? exp?, where int has no leading zero. *)
Definition int_part_ok (d : uint) : bool :=
  match d with
  | Nil => false
  | D0 Nil => true
  | D0 _ => false
  | _ => true
  end.

Definition parse_fraction (s : jsstring) : option (uint * jsstring) :=
  match s with
  | c :: r =>
      if (c =? ch ".")%N then
        let (d, r') := span_digits r in
        match d with Nil => None | _ => Some (d, r') end
      else Some (Nil, s)
  | [] => Some (Nil, [])
  end.

Definition parse_exponent (s : jsstring) : option (Z * jsstring) :=
  match s with
  | c :: r =>
      if ((c =? ch "e") || (c =? ch "E"))%N then
        let (neg, r1) :=
          match r with
          | x :: r' =>
              if (x =? ch "-")%N then (true, r')
              else if (x =? ch "+")%N then (false, r')
              else (false, r)
          | [] => (false, r)
          end in
        let (d, r2) := span_digits r1 in
        match d with
        | Nil => None
        | _ => let v := Z.of_N (N.of_uint d) in
               Some (if neg then - v else v, r2)
        end
      else Some (0, s)
  | [] => Some (0, [])
  end.

Definition parse_number (s : jsstring) : option (json * jsstring) :=
  let (neg, s1) :=
    match s with
    | c :: r => if (c =? ch "-")%N then (true, r) else (false, s)
    | [] => (false, s)
    end in
  let (int, s2) := span_digits s1 in
  if int_part_ok int then
    '(frac, s3) <- parse_fraction s2 ;;
    '(ex, s4) <- parse_exponent s3 ;;
    let m := Z.of_N (N.of_uint (Decimal.app int frac)) in
    Some (JNum (if neg then - m else m) (ex - Z.of_nat (nb_digits frac)), s4)
  else None.

Inductive parsed (A : Type) : Type :=
| Parsed (a : A) (rest : jsstring)
| Malformed
| OutOfFuel.
Arguments Parsed {A} a rest.
Arguments Malformed {A}.
Arguments OutOfFuel {A}.

(** The recursive-descent parser of JSON values.  [fuel] bounds the
    depth of the recursion; [JSON_parse] below gives enough of it. *)
Fixpoint parse_value (fuel : nat) (s : jsstring) {struct fuel} : parsed json :=
  match fuel with
  | O => OutOfFuel
  | S fuel =>
      match skip_ws s with
      | [] => Malformed
      | c :: r =>
          if (c =? ch "[")%N then
            match skip_ws r with
            | c' :: r' =>
                if (c' =? ch "]")%N then Parsed (JArr []) r'
                else
                  match parse_elements fuel r with
                  | Parsed items rest => Parsed (JArr items) rest
                  | Malformed => Malformed
                  | OutOfFuel => OutOfFuel
                  end
            | [] => Malformed
            end
          else if (c =? ch "{")%N then
            match skip_ws r with
            | c' :: r' =>
                if (c' =? ch "}")%N then Parsed (JObj []) r'
                else
                  match parse_members fuel r with
                  | Parsed members rest => Parsed (JObj members) rest
                  | Malformed => Malformed
                  | OutOfFuel => OutOfFuel
                  end
            | [] => Malformed
            end
          else if (c =? 34)%N then
            match parse_string_chars r with
            | Some (str, rest) => Parsed (JStr str) rest
            | None => Malformed
            end
          else
            match starts_with (js "true") (c :: r) with
            | Some rest => Parsed (JBool true) rest
            | None =>
            match starts_with (js "false") (c :: r) with
            | Some rest => Parsed (JBool false) rest
            | None =>
            match starts_with (js "null") (c :: r) with
            | Some rest => Parsed JNull rest
            | None =>
            match parse_number (c :: r) with
            | Some (n, rest) => Parsed n rest
            | None => Malformed
            end end end end
      end
  end

with parse_elements (fuel : nat) (s : jsstring) {struct fuel}
  : parsed (list json) :=
  match fuel with
  | O => OutOfFuel
  | S fuel =>
      match parse_value fuel s with
      | Parsed v r =>
          match skip_ws r with
          | c :: r' =>
              if (c =? ch ",")%N then
                match parse_elements fuel r' with
                | Parsed items rest => Parsed (v :: items) rest
                | Malformed => Malformed
                | OutOfFuel => OutOfFuel
                end
              else if (c =? ch "]")%N then Parsed [v] r'
              else Malformed
          | [] => Malformed
          end
      | Malformed => Malformed
      | OutOfFuel => OutOfFuel
      end
  end

with parse_members (fuel : nat) (s : jsstring) {struct fuel}
  : parsed (list (jsstring * json)) :=
  match fuel with
  | O => OutOfFuel
  | S fuel =>
      match skip_ws s with
      | c :: r =>
          if (c =? 34)%N then
            match parse_string_chars r with
            | Some (key, r1) =>
                match skip_ws r1 with
                | c1 :: r2 =>
                    if (c1 =? ch ":")%N then
                      match parse_value fuel r2 with
                      | Parsed v r3 =>
                          match skip_ws r3 with
                          | c3 :: r4 =>
                              if (c3 =? ch ",")%N then
                                match parse_members fuel r4 with
                                | Parsed members rest =>
                                    Parsed ((key, v) :: members) rest
                                | Malformed => Malformed
                                | OutOfFuel => OutOfFuel
                                end
                              else if (c3 =? ch "}")%N then
                                Parsed [(key, v)] r4
                              else Malformed
                          | [] => Malformed
                          end
                      | Malformed => Malformed
                      | OutOfFuel => OutOfFuel
                      end
                    else Malformed
                | [] => Malformed
                end
            | None => Malformed
            end
          else Malformed
      | [] => Malformed
      end
  end.

Definition parse_fuel (s : jsstring) : nat := 2 * List.length s + 1.

(** [JSON.parse]: [None] when it throws a [SyntaxError]. *)
Definition JSON_parse (s : jsstring) : option json :=
  match parse_value (parse_fuel s) s with
  | Parsed v rest => if is_empty (skip_ws rest) then Some v else None
  | Malformed => None
  | OutOfFuel => None
  end.

(** ** The page and the [TodoApp] object *)

(** [class Task] *)
Record Task : Type := mkTask {
  id : Z;
  text : jsstring;
  completed : bool;
  createdAt : Date
}.

(** What [render] and [updateStats] put on the page: the tasks listed
    (their markup is not modelled), whether the empty-state element is
    shown, and the three counters. *)
Record Screen : Type := mkScreen {
  listed : list Task;
  emptyState : bool;
  totalCount : Z;
  activeCount : Z;
  completedCount : Z
}.

Inductive error : Type := SyntaxError | TypeError.

Record World : Type := mkWorld {
  (* the fields of the TodoApp object *)
  tasks : list Task;
  currentFilter : jsstring;
  editingId : option Z;
  (* the document *)
  taskInput : jsstring;           (* value of #taskInput *)
  editInput : jsstring;           (* value of #editInput *)
  editModal : bool;               (* #editModal has the class show *)
  screen : Screen;
  (* the browser *)
  localStorage : option jsstring; (* the item 'tasks', if there is one *)
  alerts : list jsstring;         (* messages given to alert, oldest first *)
  console : list (jsstring * error) (* calls of console.error *)
}.

Definition set_tasks (l : list Task) (w : World) : World :=
  mkWorld l (currentFilter w) (editingId w) (taskInput w) (editInput w)
    (editModal w) (screen w) (localStorage w) (alerts w) (console w).
Definition set_currentFilter (f : jsstring) (w : World) : World :=
  mkWorld (tasks w) f (editingId w) (taskInput w) (editInput w)
    (editModal w) (screen w) (localStorage w) (alerts w) (console w).
Definition set_editingId (i : option Z) (w : World) : World :=
  mkWorld (tasks w) (currentFilter w) i (taskInput w) (editInput w)
    (editModal w) (screen w) (localStorage w) (alerts w) (console w).
Definition set_taskInput (s : jsstring) (w : World) : World :=
  mkWorld (tasks w) (currentFilter w) (editingId w) s (editInput w)
    (editModal w) (screen w) (localStorage w) (alerts w) (console w).
Definition set_editInput (s : jsstring) (w : World) : World :=
  mkWorld (tasks w) (currentFilter w) (editingId w) (taskInput w) s
    (editModal w) (screen w) (localStorage w) (alerts w) (console w).
Definition set_editModal (b : bool) (w : World) : World :=
  mkWorld (tasks w) (currentFilter w) (editingId w) (taskInput w)
    (editInput w) b (screen w) (localStorage w) (alerts w) (console w).
Definition set_screen (s : Screen) (w : World) : World :=
  mkWorld (tasks w) (currentFilter w) (editingId w) (taskInput w)
    (editInput w) (editModal w) s (localStorage w) (alerts w) (console w).
Definition set_localStorage (v : option jsstring) (w : World) : World :=
  mkWorld (tasks w) (currentFilter w) (editingId w) (taskInput w)
    (editInput w) (editModal w) (screen w) v (alerts w) (console w).
Definition set_alerts (l : list jsstring) (w : World) : World :=
  mkWorld (tasks w) (currentFilter w) (editingId w) (taskInput w)
    (editInput w) (editModal w) (screen w) (localStorage w) l (console w).
Definition set_console (l : list (jsstring * error)) (w : World) : World :=
  mkWorld (tasks w) (currentFilter w) (editingId w) (taskInput w)
    (editInput w) (editModal w) (screen w) (localStorage w) (alerts w) l.

(** ** Running a method

    A call ends normally with a value or abruptly with an exception.
    [Beyond] marks the one place where the model stops: [loadTasks] on a
    stored array whose entries do not fit the type [Task].  JavaScript
    goes on with such entries (it builds a [Task] whose [id] is a
    string, say); this file says nothing about what it makes of them. *)

Inductive value : Type :=
| undefined
| object (t : Task).

Inductive completion (A : Type) : Type :=
| Normal (a : A)
| Throw (e : error)
| Beyond.
Arguments Normal {A} a.
Arguments Throw {A} e.
Arguments Beyond {A}.

Definition M (A : Type) : Type := World -> completion A * World.

Definition ret {A} (a : A) : M A := fun w => (Normal a, w).

Definition bind {A B} (m : M A) (k : A -> M B) : M B :=
  fun w =>
    match m w with
    | (Normal a, w') => k a w'
    | (Throw e, w') => (Throw e, w')
    | (Beyond, w') => (Beyond, w')
    end.

Definition get : M World := fun w => (Normal w, w).
Definition modify (f : World -> World) : M unit := fun w => (Normal tt, f w).
Definition complete {A} (c : completion A) : M A := fun w => (c, w).

(** [try { body } catch (e) { handler }] *)
Definition try_catch {A} (body : M A) (handler : error -> M A) : M A :=
  fun w =>
    match body w with
    | (Throw e, w') => handler e w'
    | r => r
    end.

Declare Scope method_scope.
Delimit Scope method_scope with method.
Notation "'let*' x ':=' m 'in' k" := (bind m (fun x => k))
  (at level 10, x name, m at level 100, k at level 200) : method_scope.
Notation "m ';;;' k" := (bind m (fun _ => k))
  (at level 100, k at level 200, right associativity) : method_scope.
Bind Scope method_scope with M.

(** The state a call leaves behind, and its completion. *)
Definition after {A} (m : M A) (w : World) : World := snd (m w).
Definition result {A} (m : M A) (w : World) : completion A := fst (m w).

Definition alert (msg : jsstring) : M unit :=
  modify (fun w => set_alerts (alerts w ++ [msg]) w).

Definition console_error (msg : jsstring) (e : error) : M unit :=
  modify (fun w => set_console (console w ++ [(msg, e)]) w).

(** ** The methods of [TodoApp] *)

Local Open Scope method_scope.

(** The object literal that [saveTasks] builds for a task. *)
Definition task_record (t : Task) : jsval :=
  VObject [(js "id", VNumber (id t));
           (js "text", VString (text t));
           (js "completed", VBoolean (completed t));
           (js "createdAt", VDate (createdAt t))].

(** [saveTasks()].  [setItem] is taken to succeed: the storage quota is
    not modelled. *)
Definition saveTasks : M value :=
  modify (fun w =>
    set_localStorage
      (Some (JSON_stringify (VArray (List.map task_record (tasks w))))) w) ;;;
  ret undefined.

(** [getFilteredTasks()] *)
Definition getFilteredTasks (w : World) : list Task :=
  if jsstring_eqb (currentFilter w) (js "active")
  then List.filter (fun task => negb (completed task)) (tasks w)
  else if jsstring_eqb (currentFilter w) (js "completed")
  then List.filter (fun task => completed task) (tasks w)
  else tasks w.

(** [updateStats()]: the three counters. *)
Definition updateStats (w : World) : Z * Z * Z :=
  let total := Z.of_nat (List.length (tasks w)) in
  let completed :=
    Z.of_nat (List.length (List.filter (fun t => completed t) (tasks w))) in
  let active := total - completed in
  (total, active, completed).

(** [render()] *)
Definition render : M value :=
  let* w := get in
  let filteredTasks := getFilteredTasks w in
  let '(total, active, completed) := updateStats w in
  modify (set_screen
            (mkScreen filteredTasks
               (Nat.eqb (List.length filteredTasks) 0)
               total active completed)) ;;;
  ret undefined.

(** [addTask()].  [now] is what [Date.now()] returns and [created] the
    time of the [new Date()] that the constructor of [Task] takes as the
    default of [createdAt]. *)
Definition addTask (now created : Z) : M value :=
  let* w := get in
  let text := trim (taskInput w) in
  if is_empty text then
    alert (js "Please enter a task!") ;;;
    ret undefined
  else if (100 <? List.length text)%nat then
    alert (js "Task is too long! Maximum 100 characters.") ;;;
    ret undefined
  else
    let id := now in
    let task := mkTask id text false (DateAt created) in
    modify (fun w => set_tasks (tasks w ++ [task]) w) ;;;
    modify (set_taskInput []) ;;;
    saveTasks ;;;
    render ;;;
    ret undefined.

(** [deleteTask(id)].  [confirmed] is the answer of [confirm]. *)
Definition deleteTask (confirmed : bool) (i : Z) : M value :=
  if confirmed then
    modify (fun w =>
      set_tasks (List.filter (fun task => negb (id task =? i)) (tasks w)) w) ;;;
    saveTasks ;;;
    render ;;;
    ret undefined
  else ret undefined.

(** An assignment to a field of the object that [find] returned: the
    array holds that same object, so its first element that satisfies
    the predicate changes, in place. *)
Fixpoint assign_found (p : Task -> bool) (f : Task -> Task)
  (l : list Task) : list Task :=
  match l with
  | [] => []
  | t :: r => if p t then f t :: r else t :: assign_found p f r
  end.

Definition set_completed (b : bool) (t : Task) : Task :=
  mkTask (id t) (text t) b (createdAt t).
Definition set_text (s : jsstring) (t : Task) : Task :=
  mkTask (id t) s (completed t) (createdAt t).

(** [toggleTask(id)] *)
Definition toggleTask (i : Z) : M value :=
  let* w := get in
  match List.find (fun t => id t =? i) (tasks w) with
  | Some task =>
      modify (fun w =>
        set_tasks
          (assign_found (fun t => id t =? i)
             (fun task => set_completed (negb (completed task)) task)
             (tasks w)) w) ;;;
      saveTasks ;;;
      render ;;;
      ret undefined
  | None => ret undefined
  end.

(** [showEditModal(task)] *)
Definition showEditModal (task : Task) : M value :=
  modify (set_editInput (text task)) ;;;
  modify (set_editingId (Some (id task))) ;;;
  modify (set_editModal true) ;;;
  ret undefined.

(** [editTask(id)] *)
Definition editTask (i : Z) : M value :=
  let* w := get in
  match List.find (fun t => id t =? i) (tasks w) with
  | Some task => showEditModal task
  | None => ret undefined
  end.

(** [closeEditModal()] *)
Definition closeEditModal : M value :=
  modify (set_editModal false) ;;;
  modify (set_editingId None) ;;;
  ret undefined.

(** [saveEdit(id, newText)] *)
Definition saveEdit (i : Z) (newText : jsstring) : M value :=
  let text := trim newText in
  if is_empty text then
    alert (js "Task cannot be empty!") ;;;
    ret undefined
  else
    let* w := get in
    match List.find (fun t => id t =? i) (tasks w) with
    | Some task =>
        modify (fun w =>
          set_tasks
            (assign_found (fun t => id t =? i) (set_text text) (tasks w)) w) ;;;
        saveTasks ;;;
        closeEditModal ;;;
        render ;;;
        ret undefined
    | None => ret undefined
    end.

(** [clearCompleted()] *)
Definition clearCompleted (confirmed : bool) : M value :=
  if confirmed then
    modify (fun w =>
      set_tasks (List.filter (fun task => negb (completed task)) (tasks w)) w) ;;;
    saveTasks ;;;
    render ;;;
    ret undefined
  else ret undefined.

(** [clearAll()] *)
Definition clearAll (confirmed : bool) : M value :=
  if confirmed then
    modify (set_tasks []) ;;;
    saveTasks ;;;
    render ;;;
    ret undefined
  else ret undefined.

(** [setFilter(filter)].  The classes of the filter buttons are not
    modelled. *)
Definition setFilter (filter : jsstring) : M value :=
  modify (set_currentFilter filter) ;;;
  render ;;;
  ret undefined.

(** ** Loading *)

(** The value of the member [name] of an object read by [JSON.parse]:
    when a name is repeated in the text, the last value stands. *)
Fixpoint member (name : jsstring) (members : list (jsstring * json))
  : option json :=
  match members with
  | [] => None
  | (k, v) :: rest =>
      match member name rest with
      | Some v' => Some v'
      | None => if jsstring_eqb k name then Some v else None
      end
  end.

(** [t.name], for [t] other than [null] and a [name] that no prototype
    defines ([id], [text], [completed], [createdAt]): [None] is
    [undefined]. *)
Definition property (t : json) (name : jsstring) : option json :=
  match t with
  | JObj members => member name members
  | _ => None
  end.

Definition maxSafeInteger : Z := 9007199254740991.

(** The integer that the decimal [m * 10^e] stands for, when it is one
    that a JavaScript number holds exactly. *)
Definition safe_integer (m e : Z) : option Z :=
  let n :=
    if 0 <=? e then Some (m * 10 ^ e)
    else if m mod 10 ^ (- e) =? 0 then Some (m / 10 ^ (- e))
    else None in
  match n with
  | Some v =>
      if (- maxSafeInteger <=? v) && (v <=? maxSafeInteger) then Some v
      else None
  | None => None
  end.

(** [new Date(v)] for [v] read from JSON: [undefined] gives an invalid
    date, [null] and the booleans are taken as numbers, a string is
    parsed.  An object with a member [toString] has no primitive value,
    and the constructor throws; the conversion of the other objects and
    of arrays is not modelled, nor are the numbers that are no safe
    integers. *)
Definition new_Date (v : option json) : completion Date :=
  match v with
  | None => Normal InvalidDate
  | Some JNull => Normal (DateAt 0)
  | Some (JBool b) => Normal (DateAt (if b then 1 else 0))
  | Some (JNum m e) =>
      match safe_integer m e with
      | Some n => Normal (TimeClip n)
      | None => Beyond
      end
  | Some (JStr s) =>
      match Date_parse s with
      | Some t => Normal (DateAt t)
      | None => Beyond
      end
  | Some (JArr _) => Beyond
  | Some (JObj members) =>
      match member (js "toString") members with
      | Some _ => Throw TypeError
      | None => Beyond
      end
  end.

(** The callback of [data.map]:
    [t => new Task(t.id, t.text, t.completed, new Date(t.createdAt))].
    Reading a property of [null] throws.  An absent [completed] takes
    the default [false] of the constructor. *)
Definition revive (t : json) : completion Task :=
  match t with
  | JNull => Throw TypeError
  | _ =>
      match new_Date (property t (js "createdAt")) with
      | Normal date =>
          match property t (js "id"), property t (js "text") with
          | Some (JNum m e), Some (JStr s) =>
              match safe_integer m e, property t (js "completed") with
              | Some n, None => Normal (mkTask n s false date)
              | Some n, Some (JBool b) => Normal (mkTask n s b date)
              | _, _ => Beyond
              end
          | _, _ => Beyond
          end
      | Throw e => Throw e
      | Beyond => Beyond
      end
  end.

(** [items.map(revive)]: an exception of the callback ends the whole
    call, whatever the other entries are (the only exception there is,
    is a [TypeError]). *)
Fixpoint revive_all (items : list json) : completion (list Task) :=
  match items with
  | [] => Normal []
  | t :: rest =>
      match revive t, revive_all rest with
      | Throw e, _ => Throw e
      | _, Throw e => Throw e
      | Normal x, Normal xs => Normal (x :: xs)
      | _, _ => Beyond
      end
  end.

(** [data.map(...)]: only an array has a method [map]. *)
Definition map_revive (data : json) : completion (list Task) :=
  match data with
  | JArr items => revive_all items
  | _ => Throw TypeError
  end.

Definition JSON_parse_or_throw (s : jsstring) : completion json :=
  match JSON_parse s with
  | Some data => Normal data
  | None => Throw SyntaxError
  end.

(** [loadTasks()].  [if (stored)] fails for [null] (no item) and for the
    empty string. *)
Definition loadTasks : M value :=
  let* w := get in
  match localStorage w with
  | Some stored =>
      if is_empty stored then ret undefined
      else
        try_catch
          (let* data := complete (JSON_parse_or_throw stored) in
           let* loaded := complete (map_revive data) in
           modify (set_tasks loaded) ;;;
           ret undefined)
          (fun e =>
             console_error (js "Error loading tasks:") e ;;;
             modify (set_tasks []) ;;;
             ret undefined)
  | None => ret undefined
  end.

(** [init()]; [setupEventListeners] changes nothing that is modelled. *)
Definition init : M value :=
  loadTasks ;;;
  render ;;;
  ret undefined.

(** The constructor of [TodoApp], run in a page. *)
Definition TodoApp_constructor : M value :=
  modify (set_tasks []) ;;;
  modify (set_currentFilter (js "all")) ;;;
  modify (set_editingId None) ;;;
  init.

(** A page that has just been opened, with [stored] in [localStorage]. *)
Definition fresh_page (stored : option jsstring) : World :=
  mkWorld [] [] None [] [] false (mkScreen [] false 0 0 0) stored [] [].

(** ** The markup of a text *)

(** The serialisation of a text node: the characters that a parser of
    HTML would take for markup are written as character references. *)
Definition escape_char (c : char16) : jsstring :=
  if (c =? ch "&")%N then js "&amp;"
  else if (c =? 160)%N then js "&nbsp;"
  else if (c =? ch "<")%N then js "&lt;"
  else if (c =? ch ">")%N then js "&gt;"
  else [c].

(** [escapeHtml(text)]: the [innerHTML] of an element whose
    [textContent] is [text]. *)
Definition escapeHtml (text : jsstring) : jsstring :=
  List.flat_map escape_char text.

(** ** The listeners

    [setupEventListeners], the [onclick] attributes that [render] writes
    and the handlers that [showEditModal] installs bind the events of
    the page to the methods.  The handlers of the modal are closures
    over the task that [showEditModal] was given: a page is a world
    together with the id of that task, if the modal was ever opened. *)

Record Page : Type := mkPage {
  world : World;
  editTarget : option Z
}.

Inductive event : Type :=
| TypeTask (s : jsstring)                       (* the user edits #taskInput *)
| ClickAdd (now created : Z)                    (* click on #addBtn *)
| KeypressTask (key : jsstring) (now created : Z) (* keypress in #taskInput *)
| ClickFilter (filter : jsstring)               (* a .filter-btn and its data-filter *)
| ClickClearCompleted (confirmed : bool)        (* click on #clearCompleted *)
| ClickClearAll (confirmed : bool)              (* click on #clearAll *)
| ClickCheckbox (i : Z)                         (* onclick="app.toggleTask(i)" *)
| ClickEdit (i : Z)                             (* onclick="app.editTask(i)" *)
| ClickDelete (i : Z) (confirmed : bool)        (* onclick="app.deleteTask(i)" *)
| TypeEdit (s : jsstring)                       (* the user edits #editInput *)
| ClickSave                                     (* click on #saveEditBtn *)
| ClickCancel                                   (* click on #cancelEditBtn *)
| KeypressEdit (key : jsstring)                 (* keypress in #editInput *)
| ClickModal (onBackdrop : bool).               (* click in #editModal *)

Definition on_world (m : M value) (p : Page) : Page :=
  mkPage (after m (world p)) (editTarget p).

(** [save] and [close] of [showEditModal], once they are installed. *)
Definition modal_save (p : Page) : Page :=
  match editTarget p with
  | Some i => on_world (saveEdit i (editInput (world p))) p
  | None => p
  end.
Definition modal_close (p : Page) : Page :=
  match editTarget p with
  | Some _ => on_world closeEditModal p
  | None => p
  end.

Definition dispatch (p : Page) (e : event) : Page :=
  match e with
  | TypeTask s => mkPage (set_taskInput s (world p)) (editTarget p)
  | ClickAdd now created => on_world (addTask now created) p
  | KeypressTask key now created =>
      if jsstring_eqb key (js "Enter") then on_world (addTask now created) p
      else p
  | ClickFilter filter => on_world (setFilter filter) p
  | ClickClearCompleted confirmed => on_world (clearCompleted confirmed) p
  | ClickClearAll confirmed => on_world (clearAll confirmed) p
  | ClickCheckbox i => on_world (toggleTask i) p
  | ClickEdit i =>
      mkPage (after (editTask i) (world p))
        (match List.find (fun t => id t =? i) (tasks (world p)) with
         | Some task => Some (id task)
         | None => editTarget p
         end)
  | ClickDelete i confirmed => on_world (deleteTask confirmed i) p
  | TypeEdit s => mkPage (set_editInput s (world p)) (editTarget p)
  | ClickSave => modal_save p
  | ClickCancel => modal_close p
  | KeypressEdit key =>
      if jsstring_eqb key (js "Enter") then modal_save p else p
  | ClickModal onBackdrop => if onBackdrop then modal_close p else p
  end.

Definition play (events : list event) (p : Page) : Page :=
  List.fold_left dispatch events p.

(** The page once the script has run: the constructor of [TodoApp] in a
    page that was just opened. *)
Definition open_page (stored : option jsstring) : Page :=
  mkPage (after TodoApp_constructor (fresh_page stored)) None.

(** ** Notions used in the statements *)

(** The store operations, as a sequence of user actions.  An addition
    carries what was typed and the two readings of the clock; deletions
    and clearings are the ones the user confirmed. *)
Inductive op : Type :=
| Add (rawText : jsstring) (now created : Z)
| Delete (i : Z)
| Toggle (i : Z)
| Edit (i : Z) (newRawText : jsstring)
| ClearCompleted
| ClearAll.

Definition step (w : World) (o : op) : World :=
  match o with
  | Add rawText now created =>
      after (addTask now created) (set_taskInput rawText w)
  | Delete i => after (deleteTask true i) w
  | Toggle i => after (toggleTask i) w
  | Edit i newRawText => after (saveEdit i newRawText) w
  | ClearCompleted => after (clearCompleted true) w
  | ClearAll => after (clearAll true) w
  end.

Definition run (ops : list op) (w : World) : World :=
  List.fold_left step ops w.

Definition ids (w : World) : list Z := List.map id (tasks w).

(** [selection p l r]: [r] holds exactly the elements of [l] that
    satisfy [p], in the order of [l]. *)
Inductive selection (p : Task -> bool) : list Task -> list Task -> Prop :=
| selection_nil : selection p [] []
| selection_keep t l r :
    p t = true -> selection p l r -> selection p (t :: l) (t :: r)
| selection_skip t l r :
    p t = false -> selection p l r -> selection p (t :: l) r.

(** A task as the data model describes it: an integer [id] that a
    JavaScript number holds exactly and a valid date. *)
Definition well_formed (t : Task) : bool :=
  (- maxSafeInteger <=? id t) && (id t <=? maxSafeInteger)
  && match createdAt t with
     | DateAt ms => valid_time ms
     | InvalidDate => false
     end.

(** The clock moves between any two additions: each [Add] reads a time
    later than [last] and than the additions before it. *)
Fixpoint clock_increases (last : Z) (ops : list op) : Prop :=
  match ops with
  | [] => True
  | Add _ now _ :: rest => last < now /\ clock_increases now rest
  | _ :: rest => clock_increases last rest
  end.

(** What [JSON.parse] reads back from the text of a task. *)
Definition json_of_task (t : Task) : json :=
  JObj [(js "id", JNum (id t) 0);
        (js "text", JStr (text t));
        (js "completed", JBool (completed t));
        (js "createdAt",
          match createdAt t with
          | DateAt ms => JStr (toISOString ms)
          | InvalidDate => JNull
          end)].

(** The readings of the clock of an addition are times that a [Date]
    holds. *)
Definition clock_in_range (o : op) : bool :=
  match o with
  | Add _ now created => valid_time now && valid_time created
  | _ => true
  end.

(** The storage holds the text of the collection; or nothing was saved
    yet, and the collection is empty. *)
Definition in_sync (w : World) : Prop :=
  localStorage w
  = Some (JSON_stringify (VArray (List.map task_record (tasks w))))
  \/ (localStorage w = None /\ tasks w = []).

(** The screen shows the collection under the filter, and its counters
    are those of the collection: [render] would change nothing. *)
Definition up_to_date (w : World) : Prop := after render w = w.


(** A text as [addTask] and [saveEdit] store it: not empty, with no
    white space at either end. *)
Definition text_ok (t : Task) : Prop :=
  text t <> []
  /\ is_white_space (List.hd 0%N (text t)) = false
  /\ is_white_space (List.last (text t) 0%N) = false.

(** A task that [saveTasks] can write: its id is a safe integer and its
    date, when it is valid, a time that a [Date] holds. *)
Definition storable (t : Task) : bool :=
  (- maxSafeInteger <=? id t) && (id t <=? maxSafeInteger)
  && match createdAt t with
     | DateAt ms => valid_time ms
     | InvalidDate => true
     end.

(** What comes back of a task that was saved: an invalid date is written
    as [null], which [new Date] reads as the epoch. *)
Definition reloaded (t : Task) : Task :=
  match createdAt t with
  | DateAt _ => t
  | InvalidDate => mkTask (id t) (text t) (completed t) (DateAt 0)
  end.


(** The characters that [escapeHtml] rewrites. *)
Definition is_markup (c : char16) : bool :=
  ((c =? ch "&") || (c =? 160) || (c =? ch "<") || (c =? ch ">"))%N.

(** The messages of the program. *)
Definition msg_empty : jsstring := js "Please enter a task!".
Definition msg_too_long : jsstring :=
  js "Task is too long! Maximum 100 characters.".
Definition msg_load_error : jsstring := js "Error loading tasks:".

(** The text that [saveTasks] writes for one task. *)
Definition task_text (t : Task) : jsstring := JSON_stringify (task_record t).

(** A character after which a number has ended. *)
Definition ends_number (c : char16) : Prop :=
  is_digit c = false /\ (c =? ch ".")%N = false
  /\ (c =? ch "e")%N = false /\ (c =? ch "E")%N = false.

(** Worlds and texts of the examples.  [js'] takes a text written with
    an apostrophe wherever it has a double quote. *)
Definition js' (s : string) : jsstring :=
  List.map (fun c => if (c =? 39)%N then 34%N else c) (js s).

Definition two_tasks : World :=
  run [Add (js "Buy milk") 1700000000000 1700000000001;
       Add (js "Call") 1700000000500 1700000000500;
       Toggle 1700000000500]
    (fresh_page None).

Definition buy_milk : Task :=
  mkTask 1700000000000 (js "Buy milk") false (DateAt 1700000000001).

Definition not_valid_json : jsstring := js "{not valid json".

Definition undated : World :=
  set_tasks [mkTask 1 (js "A") true InvalidDate] (fresh_page None).

(** ** Tactics *)

(** Case analysis on the value of a code unit. *)
Ltac eqb_case c n :=
  let E := fresh "E" in
  destruct (N.eqb_spec c n) as [E|E]; [subst c|].

(** Two lists of alerts that differ in what was added last. *)
Ltac alerts_differ :=
  let H := fresh "H" in
  intros H;
  first [ apply app_inv_head in H; discriminate
        | apply (f_equal (@List.length _)) in H;
          rewrite length_app in H; cbn [List.length] in H; lia ].

(* ================================================================== *)
(** * Part II: the library functions *)
(* ================================================================== *)

(** ** Fixed-width decimal fields *)

Lemma is_digit_digit_char d : 0 <= d <= 9 -> is_digit (digit_char d) = true.
Proof.
  intros H. unfold is_digit, digit_char.
  apply andb_true_intro; split; apply N.leb_le; lia.
Qed.

Lemma digit_val_digit_char d : 0 <= d <= 9 -> digit_val (digit_char d) = d.
Proof. intros H. unfold digit_val, digit_char. lia. Qed.

Lemma read_digits_snoc w : forall acc s,
  read_digits (S w) acc s =
  match read_digits w acc s with
  | Some (a, c :: r) =>
      if is_digit c then Some (10 * a + digit_val c, r) else None
  | _ => None
  end.
Proof.
  induction w as [|w IH]; intros acc s.
  - destruct s as [|c r]; reflexivity.
  - destruct s as [|c r]; [reflexivity|].
    change (read_digits (S (S w)) acc (c :: r))
      with (if is_digit c then read_digits (S w) (10 * acc + digit_val c) r
            else None).
    change (read_digits (S w) acc (c :: r))
      with (if is_digit c then read_digits w (10 * acc + digit_val c) r
            else None).
    destruct (is_digit c); [apply IH | reflexivity].
Qed.

Lemma read_digits_pad w : forall n acc r,
  0 <= n < 10 ^ Z.of_nat w ->
  read_digits w acc (pad w n ++ r) = Some (acc * 10 ^ Z.of_nat w + n, r).
Proof.
  induction w as [|w IH]; intros n acc r Hn.
  - cbn in *. f_equal. f_equal. lia.
  - rewrite read_digits_snoc. cbn [pad]. rewrite <- app_assoc.
    assert (Hpow : 10 ^ Z.of_nat (S w) = 10 * 10 ^ Z.of_nat w).
    { rewrite Nat2Z.inj_succ, Z.pow_succ_r by lia. reflexivity. }
    rewrite Hpow in *.
    assert (Hq : 0 <= n / 10 < 10 ^ Z.of_nat w).
    { split; [apply Z.div_pos; lia|]. apply Z.div_lt_upper_bound; lia. }
    rewrite IH by exact Hq.
    change ([digit_char (n mod 10)] ++ r) with (digit_char (n mod 10) :: r).
    cbv beta iota.
    pose proof (Z.mod_pos_bound n 10 ltac:(lia)) as Hm.
    rewrite is_digit_digit_char, digit_val_digit_char by lia.
    f_equal. f_equal.
    pose proof (Z.div_mod n 10 ltac:(lia)). lia.
Qed.

(** ** The calendar *)

Lemma civil_from_days_spec z :
  let '(y, m, d) := civil_from_days z in
  days_from_civil y m d = z
  /\ 1 <= m <= 12 /\ 1 <= d <= days_in_month y m
  /\ 400 * ((z + 719468) / 146097) <= y <= 400 * ((z + 719468) / 146097) + 400.
Proof.
  unfold civil_from_days.
  set (z' := z + 719468).
  set (era := z' / 146097). set (doe := z' mod 146097).
  assert (Hdoe : 0 <= doe <= 146096)
    by (subst doe; pose proof (Z.mod_pos_bound z' 146097); lia).
  assert (Hz : z = 146097 * era + doe - 719468)
    by (subst era doe z'; pose proof (Z.div_mod (z + 719468) 146097); lia).
  clearbody era doe. clear z'.
  set (yoe := (doe - doe / 1460 + doe / 36524 - doe / 146096) / 365).
  assert (Hyoe : 0 <= yoe <= 399
                 /\ 365 * yoe + yoe / 4 - yoe / 100 <= doe
                 /\ doe - (365 * yoe + yoe / 4 - yoe / 100) <= 365
                 /\ (doe - (365 * yoe + yoe / 4 - yoe / 100) = 365 ->
                     (yoe + 1) mod 4 = 0
                     /\ ((yoe + 1) mod 100 <> 0 \/ (yoe + 1) mod 400 = 0))).
  { subst yoe. Z.div_mod_to_equations. lia. }
  clearbody yoe.
  set (doy := doe - (365 * yoe + yoe / 4 - yoe / 100)) in *.
  assert (Hdoy : doe = 365 * yoe + yoe / 4 - yoe / 100 + doy)
    by (subst doy; lia).
  clearbody doy. subst doe z.
  set (mp := (5 * doy + 2) / 153).
  assert (Hmp : 0 <= mp <= 11) by (subst mp; Z.div_mod_to_equations; lia).
  assert (Hera : forall k, 0 <= k <= 399 -> (k + era * 400) / 400 = era
                                           /\ (k + era * 400) mod 400 = k).
  { intros k Hk. rewrite Z.div_add, Z.mod_add by lia.
    rewrite Z.div_small, Z.mod_small by lia. lia. }
  destruct (Z.ltb_spec mp 10) as [Hlt|Hge].
  - replace (mp + 3 <=? 2) with false by (symmetry; apply Z.leb_gt; lia).
    unfold days_from_civil.
    replace (mp + 3 <=? 2) with false by (symmetry; apply Z.leb_gt; lia).
    replace (2 <? mp + 3) with true by (symmetry; apply Z.ltb_lt; lia).
    destruct (Hera yoe) as [-> ->]; [lia|].
    replace (mp + 3 - 3) with mp by lia.
    split; [|split; [lia|split; [|lia]]].
    + subst mp. Z.div_mod_to_equations. lia.
    + unfold days_in_month.
      replace (mp + 3 =? 2) with false by (symmetry; apply Z.eqb_neq; lia).
      assert (Hcases : mp = 0 \/ mp = 1 \/ mp = 2 \/ mp = 3 \/ mp = 4 \/ mp = 5
                       \/ mp = 6 \/ mp = 7 \/ mp = 8 \/ mp = 9) by lia.
      destruct Hcases as [E|[E|[E|[E|[E|[E|[E|[E|[E|E]]]]]]]]];
        rewrite E;
        match goal with
        | |- context [if ?b then _ else _] =>
            let v := eval vm_compute in b in change b with v
        end; cbv iota;
        subst mp; Z.div_mod_to_equations; lia.
  - replace (mp - 9 <=? 2) with true by (symmetry; apply Z.leb_le; lia).
    unfold days_from_civil.
    replace (mp - 9 <=? 2) with true by (symmetry; apply Z.leb_le; lia).
    replace (2 <? mp - 9) with false by (symmetry; apply Z.ltb_ge; lia).
    replace (yoe + era * 400 + 1 - 1) with (yoe + era * 400) by lia.
    destruct (Hera yoe) as [-> ->]; [lia|].
    replace (mp - 9 + 9) with mp by lia.
    split; [|split; [lia|split; [|lia]]].
    + subst mp. Z.div_mod_to_equations. lia.
    + unfold days_in_month, is_leap.
      assert (Hcases : mp = 10 \/ mp = 11) by lia.
      destruct Hcases as [E|E]; rewrite E; cbn -[Z.mul Z.div Z.add Z.sub Z.modulo Z.eqb].
      * change (10 - 9 =? 2) with false. cbn.
        subst mp; Z.div_mod_to_equations; lia.
      * change (11 - 9 =? 2) with true. cbv iota.
        assert (Hd : doy - (153 * 11 + 2) / 5 + 1 <= 28
                     \/ doy = 365) by (subst mp; Z.div_mod_to_equations; lia).
        destruct Hd as [Hd|Hd].
        -- split; [subst mp; Z.div_mod_to_equations; lia|].
           destruct (_ && _); lia.
        -- destruct Hyoe as (_ & _ & _ & Hleap). specialize (Hleap Hd).
           replace ((yoe + era * 400 + 1) mod 4) with ((yoe + 1) mod 4)
             by (Z.div_mod_to_equations; lia).
           replace ((yoe + era * 400 + 1) mod 100) with ((yoe + 1) mod 100)
             by (Z.div_mod_to_equations; lia).
           replace ((yoe + era * 400 + 1) mod 400) with ((yoe + 1) mod 400)
             by (Z.div_mod_to_equations; lia).
           destruct Hleap as [H4 H100]. rewrite H4. cbn [Z.eqb andb].
           assert (Hb : negb ((yoe + 1) mod 100 =? 0) || ((yoe + 1) mod 400 =? 0) = true).
           { destruct H100 as [H|H].
             - apply Z.eqb_neq in H. rewrite H. reflexivity.
             - rewrite H. cbn. apply orb_true_r. }
           rewrite Hb. subst doy. cbn. lia.
Qed.

Lemma pad_head w : forall n, 0 <= n ->
  exists c r, pad (S w) n = c :: r /\ is_digit c = true.
Proof.
  induction w as [|w IH]; intros n Hn.
  - exists (digit_char (n mod 10)), []. split; [reflexivity|].
    apply is_digit_digit_char. pose proof (Z.mod_pos_bound n 10). lia.
  - destruct (IH (n / 10)) as (c & r & E & Hc); [apply Z.div_pos; lia|].
    exists c, (r ++ [digit_char (n mod 10)]).
    change (pad (S (S w)) n) with (pad (S w) (n / 10) ++ [digit_char (n mod 10)]).
    rewrite E. split; [reflexivity | exact Hc].
Qed.

Lemma is_digit_not c x :
  is_digit c = true -> (x <? 48)%N = true -> (c =? x)%N = false.
Proof.
  unfold is_digit. intros H Hx.
  apply andb_prop in H. destruct H as [H1 H2].
  apply N.leb_le in H1. apply N.ltb_lt in Hx. apply N.eqb_neq. lia.
Qed.

Lemma parse_year_chars y rest :
  - 1000000 < y < 1000000 ->
  parse_year (year_chars y ++ rest) = Some (y, rest).
Proof.
  intros Hy. unfold year_chars.
  destruct (Z.leb_spec 0 y) as [H0|H0];
    [destruct (Z.leb_spec y 9999) as [H1|H1]|]; cbn [andb].
  - destruct (pad_head 3 y H0) as (c & r & E & Hc).
    unfold parse_year. rewrite E. cbn [List.app].
    rewrite (is_digit_not c (ch "+") Hc), (is_digit_not c (ch "-") Hc)
      by reflexivity.
    change (c :: r ++ rest) with ((c :: r) ++ rest). rewrite <- E.
    rewrite read_digits_pad by (change (10 ^ Z.of_nat 4) with 10000; lia).
    reflexivity.
  - replace (y <? 0) with false by (symmetry; apply Z.ltb_ge; lia).
    unfold parse_year. cbn [List.app]. rewrite N.eqb_refl.
    rewrite Z.abs_eq by lia.
    rewrite read_digits_pad by (change (10 ^ Z.of_nat 6) with 1000000; lia).
    reflexivity.
  - replace (y <? 0) with true by (symmetry; apply Z.ltb_lt; lia).
    unfold parse_year. cbn [List.app].
    change (ch "-" =? ch "+")%N with false. rewrite N.eqb_refl. cbv iota.
    rewrite Z.abs_neq by lia.
    rewrite read_digits_pad by (change (10 ^ Z.of_nat 6) with 1000000; lia).
    replace (0 * 10 ^ Z.of_nat 6 + - y =? 0) with false
      by (symmetry; apply Z.eqb_neq; lia).
    f_equal. f_equal. lia.
Qed.

Lemma days_in_month_le y m : days_in_month y m <= 31.
Proof.
  unfold days_in_month.
  repeat match goal with
         | |- context [if ?b then _ else _] => destruct b
         end; lia.
Qed.

Lemma expect_head c s : expect c (c :: s) = Some s.
Proof. unfold expect. rewrite N.eqb_refl. reflexivity. Qed.

(** [Date.parse] reads back what [toISOString] writes. *)
Lemma Date_parse_toISOString t :
  - maxTime <= t <= maxTime -> Date_parse (toISOString t) = Some t.
Proof.
  intros Ht. unfold toISOString.
  pose proof (civil_from_days_spec (Day t)) as Hc.
  destruct (civil_from_days (Day t)) as [[y m] d].
  destruct Hc as (Hday & Hm & Hd & Hy).
  assert (HD : - 100000000 <= Day t <= 100000000).
  { unfold Day, msPerDay, maxTime in *. Z.div_mod_to_equations. lia. }
  assert (Hy' : - 1000000 < y < 1000000) by (Z.div_mod_to_equations; lia).
  pose proof (Z.mod_pos_bound t msPerDay ltac:(reflexivity)) as Hw.
  fold (TimeWithinDay t) in Hw.
  assert (Ht' : t = Day t * msPerDay + TimeWithinDay t).
  { unfold Day, TimeWithinDay. pose proof (Z.div_mod t msPerDay). 
    unfold msPerDay in *. lia. }
  set (w := TimeWithinDay t) in *. clearbody w.
  unfold msPerDay in Hw.
  unfold Date_parse.
  rewrite parse_year_chars by exact Hy'.
  rewrite expect_head.
  rewrite read_digits_pad by (change (10 ^ Z.of_nat 2) with 100;
    pose proof (Z.le_refl 0); unfold days_in_month in Hd; lia).
  rewrite expect_head.
  rewrite read_digits_pad.
  2:{ change (10 ^ Z.of_nat 2) with 100.
      pose proof (days_in_month_le y m). lia. }
  rewrite expect_head.
  rewrite read_digits_pad
    by (change (10 ^ Z.of_nat 2) with 100; Z.div_mod_to_equations; lia).
  rewrite expect_head.
  rewrite read_digits_pad
    by (change (10 ^ Z.of_nat 2) with 100; Z.div_mod_to_equations; lia).
  rewrite expect_head.
  rewrite read_digits_pad
    by (change (10 ^ Z.of_nat 2) with 100; Z.div_mod_to_equations; lia).
  rewrite expect_head.
  rewrite read_digits_pad
    by (change (10 ^ Z.of_nat 3) with 1000; Z.div_mod_to_equations; lia).
  change ([ch "Z"]) with (ch "Z" :: []). rewrite expect_head.
  cbn [is_empty andb].
  change (10 ^ Z.of_nat 2) with 100. change (10 ^ Z.of_nat 3) with 1000.
  replace (1 <=? 0 * 100 + m) with true by (symmetry; apply Z.leb_le; lia).
  replace (0 * 100 + m <=? 12) with true by (symmetry; apply Z.leb_le; lia).
  replace (1 <=? 0 * 100 + d) with true by (symmetry; apply Z.leb_le; lia).
  replace (0 * 100 + m) with m by lia.
  replace (0 * 100 + d) with d by lia.
  replace (d <=? days_in_month y m) with true by (symmetry; apply Z.leb_le; lia).
  replace (0 * 100 + w / 3600000 <=? 23) with true
    by (symmetry; apply Z.leb_le; Z.div_mod_to_equations; lia).
  replace (0 * 100 + w / 60000 mod 60 <=? 59) with true
    by (symmetry; apply Z.leb_le; Z.div_mod_to_equations; lia).
  replace (0 * 100 + w / 1000 mod 60 <=? 59) with true
    by (symmetry; apply Z.leb_le; Z.div_mod_to_equations; lia).
  cbn [andb]. rewrite Hday.
  assert (E : Day t * msPerDay + (0 * 100 + w / 3600000) * 3600000
              + (0 * 100 + w / 60000 mod 60) * 60000
              + (0 * 100 + w / 1000 mod 60) * 1000 + (0 * 1000 + w mod 1000) = t).
  { unfold msPerDay in *. Z.div_mod_to_equations. lia. }
  rewrite E.
  replace (valid_time t) with true; [reflexivity|].
  symmetry. unfold valid_time. apply andb_true_intro.
  split; apply Z.leb_le; lia.
Qed.

Example toISOString_epoch :
  toISOString 0 = js "1970-01-01T00:00:00.000Z".
Proof. reflexivity. Qed.

Example toISOString_limits :
  toISOString (- maxTime) = js "-271821-04-20T00:00:00.000Z"
  /\ toISOString maxTime = js "+275760-09-13T00:00:00.000Z"
  /\ toISOString 1700000000000 = js "2023-11-14T22:13:20.000Z"
  /\ toISOString (-1) = js "1969-12-31T23:59:59.999Z".
Proof. repeat split. Qed.

(** ** JSON strings *)

Lemma hex_val_hex_char d : (d < 16)%N -> hex_val (hex_char d) = Some d.
Proof.
  intros Hd. unfold hex_char, hex_val.
  destruct (N.ltb_spec d 10) as [H|H].
  - replace ((48 <=? 48 + d) && (48 + d <=? 57))%N with true.
    + f_equal. lia.
    + symmetry. apply andb_true_intro. split; apply N.leb_le; lia.
  - replace ((48 <=? 87 + d) && (87 + d <=? 57))%N with false.
    + replace ((97 <=? 87 + d) && (87 + d <=? 102))%N with true.
      * f_equal. lia.
      * symmetry. apply andb_true_intro. split; apply N.leb_le; lia.
    + symmetry. apply andb_false_intro2. apply N.leb_gt. lia.
Qed.

Lemma hex4_uescape c : (c < 65536)%N ->
  hex4 (hex_char (c / 4096 mod 16)) (hex_char (c / 256 mod 16))
       (hex_char (c / 16 mod 16)) (hex_char (c mod 16)) = Some c.
Proof.
  intros Hc. unfold hex4.
  rewrite !hex_val_hex_char by (apply N.mod_lt; discriminate).
  f_equal.
  pose proof (N.div_mod c 16 ltac:(discriminate)) as H1.
  pose proof (N.div_mod (c / 16) 16 ltac:(discriminate)) as H2.
  pose proof (N.div_mod (c / 256) 16 ltac:(discriminate)) as H3.
  rewrite N.Div0.div_div in H2. rewrite N.Div0.div_div in H3.
  change (16 * 16)%N with 256%N in *. change (256 * 16)%N with 4096%N in *.
  assert (H4 : (c / 4096 < 16)%N)
    by (apply N.Div0.div_lt_upper_bound; exact Hc).
  rewrite (N.mod_small (c / 4096) 16) by exact H4.
  lia.
Qed.

Lemma parse_uescape c s :
  (c < 65536)%N ->
  parse_string_chars (uescape c ++ s) =
  match parse_string_chars s with
  | Some (body, rest) => Some (c :: body, rest)
  | None => None
  end.
Proof.
  intros Hc. unfold uescape.
  cbn [List.app parse_string_chars].
  change (ch "\" =? 34)%N with false. change (ch "\" =? 92)%N with true.
  change (ch "u" =? ch "u")%N with true. cbv iota.
  rewrite hex4_uescape by exact Hc. reflexivity.
Qed.

Lemma parse_string_quote_aux n : forall s rest,
  (List.length s <= n)%nat ->
  parse_string_chars (quote_chars s ++ 34%N :: rest) = Some (s, rest).
Proof.
  induction n as [|n IH]; intros s rest Hlen.
  - destruct s; [reflexivity | cbn in Hlen; lia].
  - destruct s as [|c r]; [reflexivity|].
    cbn [List.length] in Hlen.
    assert (IHr : forall rest,
      parse_string_chars (quote_chars r ++ 34%N :: rest) = Some (r, rest))
      by (intros; apply IH; lia).
    cbn [quote_chars].
    eqb_case c 8%N; [cbn; rewrite IHr; reflexivity|].
    eqb_case c 9%N; [cbn; rewrite IHr; reflexivity|].
    eqb_case c 10%N; [cbn; rewrite IHr; reflexivity|].
    eqb_case c 12%N; [cbn; rewrite IHr; reflexivity|].
    eqb_case c 13%N; [cbn; rewrite IHr; reflexivity|].
    eqb_case c 34%N; [cbn; rewrite IHr; reflexivity|].
    eqb_case c 92%N; [cbn; rewrite IHr; reflexivity|].
    assert (E34 : (c =? 34)%N = false) by (apply N.eqb_neq; assumption).
    assert (E92 : (c =? 92)%N = false) by (apply N.eqb_neq; assumption).
    destruct (c <? 32)%N eqn:H32.
    { apply N.ltb_lt in H32.
      rewrite <- app_assoc, parse_uescape, IHr by lia. reflexivity. }
    assert (Hplain : forall tail body rest',
      parse_string_chars tail = Some (body, rest') ->
      parse_string_chars (c :: tail) = Some (c :: body, rest')).
    { intros tail body rest' Ht. cbn [parse_string_chars].
      rewrite E34, E92, H32, Ht. reflexivity. }
    destruct (is_high_surrogate c) eqn:Hhi.
    { assert (Hc : (c < 65536)%N).
      { unfold is_high_surrogate in Hhi. apply andb_prop in Hhi.
        destruct Hhi as [_ H]. apply N.leb_le in H. lia. }
      destruct r as [|d r'].
      - cbn [List.app]. 
        change (uescape c ++ 34%N :: rest) with (uescape c ++ (34%N :: rest)).
        rewrite parse_uescape by exact Hc. reflexivity.
      - destruct (is_low_surrogate d) eqn:Hlo.
        + cbn [List.app]. apply Hplain.
          unfold is_low_surrogate in Hlo. apply andb_prop in Hlo.
          destruct Hlo as [Hl1 Hl2]. apply N.leb_le in Hl1, Hl2.
          cbn [parse_string_chars].
          replace (d =? 34)%N with false by (symmetry; apply N.eqb_neq; lia).
          replace (d =? 92)%N with false by (symmetry; apply N.eqb_neq; lia).
          replace (d <? 32)%N with false by (symmetry; apply N.ltb_ge; lia).
          rewrite IH by (cbn in Hlen; lia). reflexivity.
        + rewrite <- app_assoc, parse_uescape, IHr by exact Hc. reflexivity. }
    destruct (is_low_surrogate c) eqn:Hlo.
    { assert (Hc : (c < 65536)%N).
      { unfold is_low_surrogate in Hlo. apply andb_prop in Hlo.
        destruct Hlo as [_ H]. apply N.leb_le in H. lia. }
      rewrite <- app_assoc, parse_uescape, IHr by exact Hc. reflexivity. }
    cbn [List.app]. apply Hplain, IHr.
Qed.

(** A string literal written by [QuoteJSONString] is read back. *)
Lemma parse_string_quote s rest :
  parse_string_chars (quote_chars s ++ 34%N :: rest) = Some (s, rest).
Proof. apply (parse_string_quote_aux (List.length s)). lia. Qed.

(** ** JSON numbers *)

Lemma span_digits_uint_chars d : forall c r,
  is_digit c = false ->
  span_digits (uint_chars d ++ c :: r) = (d, c :: r).
Proof.
  induction d; intros c r Hc; cbn [uint_chars List.app span_digits];
    try (change (is_digit _) with true at 1; cbv iota; rewrite IHd by exact Hc;
         reflexivity).
  rewrite Hc. reflexivity.
Qed.

Lemma uint_chars_head d :
  d <> Nil -> exists c r, uint_chars d = c :: r /\ is_digit c = true.
Proof.
  destruct d; intros H; [congruence|..];
    eexists _, _; (split; [reflexivity|reflexivity]).
Qed.

Lemma to_uint_no_leading_zero p : int_part_ok (Pos.to_uint p) = true.
Proof.
  pose proof (DecimalPos.Unsigned.to_uint_nonnil p) as Hnil.
  pose proof (DecimalPos.Unsigned.to_uint_nonzero p) as Hz.
  pose proof (DecimalN.Unsigned.to_of (Pos.to_uint p)) as Hn.
  change (N.of_uint (Pos.to_uint p)) with (Pos.of_uint (Pos.to_uint p)) in Hn.
  rewrite DecimalPos.Unsigned.of_to in Hn. cbn [N.to_uint] in Hn.
  destruct (Pos.to_uint p) as [|d| | | | | | | | |]; try reflexivity.
  - congruence.
  - destruct d; try reflexivity; exfalso; rewrite unorm_D0 in Hn;
      match type of Hn with
      | _ = unorm ?u =>
          pose proof (nb_digits_unorm u ltac:(discriminate)) as Hle;
          rewrite <- Hn in Hle; cbn [nb_digits] in Hle; lia
      end.
Qed.

Lemma parse_number_digits d c r :
  int_part_ok d = true ->
  is_digit c = false -> (c =? ch ".")%N = false ->
  (c =? ch "e")%N = false -> (c =? ch "E")%N = false ->
  parse_number (uint_chars d ++ c :: r)
  = Some (JNum (Z.of_N (N.of_uint d)) 0, c :: r)
  /\ parse_number (ch "-" :: uint_chars d ++ c :: r)
     = Some (JNum (- Z.of_N (N.of_uint d)) 0, c :: r).
Proof.
  intros Hok Hc Hdot He HE.
  assert (Htail : forall neg : bool,
    (let (int, s2) := span_digits (uint_chars d ++ c :: r) in
     if int_part_ok int then
       match parse_fraction s2 with
       | Some (frac, s3) =>
           match parse_exponent s3 with
           | Some (ex, s4) =>
               let m := Z.of_N (N.of_uint (Decimal.app int frac)) in
               Some (JNum (if neg then - m else m)
                       (ex - Z.of_nat (nb_digits frac)), s4)
           | None => None
           end
       | None => None
       end
     else None)
    = Some (JNum (if neg then - Z.of_N (N.of_uint d) else Z.of_N (N.of_uint d)) 0,
            c :: r)).
  { intros neg. rewrite span_digits_uint_chars by exact Hc. rewrite Hok.
    unfold parse_fraction. rewrite Hdot.
    unfold parse_exponent. rewrite He, HE. cbn [orb].
    rewrite DecimalFacts.app_nil_r. reflexivity. }
  split.
  - assert (Hd : d <> Nil) by (intros ->; discriminate).
    destruct (uint_chars_head d Hd) as (x & xs & E & Hx).
    unfold parse_number. rewrite E. cbn [List.app].
    rewrite (is_digit_not x (ch "-") Hx) by reflexivity.
    change (x :: xs ++ c :: r) with ((x :: xs) ++ c :: r). rewrite <- E.
    apply (Htail false).
  - unfold parse_number. rewrite N.eqb_refl. apply (Htail true).
Qed.

(** A number written by [Number::toString] is read back, when what
    follows it cannot belong to a number. *)
Lemma parse_number_integer n c r :
  ends_number c ->
  parse_number (integer_toString n ++ c :: r) = Some (JNum n 0, c :: r).
Proof.
  intros (Hc & Hdot & He & HE).
  destruct n as [|p|p]; unfold integer_toString.
  - apply (proj1 (parse_number_digits (D0 Nil) c r eq_refl Hc Hdot He HE)).
  - destruct (parse_number_digits (Pos.to_uint p) c r
                (to_uint_no_leading_zero p) Hc Hdot He HE) as [H _].
    rewrite H. change (N.of_uint (Pos.to_uint p)) with (Pos.of_uint (Pos.to_uint p)).
    rewrite DecimalPos.Unsigned.of_to. reflexivity.
  - destruct (parse_number_digits (Pos.to_uint p) c r
                (to_uint_no_leading_zero p) Hc Hdot He HE) as [_ H].
    change (parse_number (ch "-" :: uint_chars (Pos.to_uint p) ++ c :: r)
            = Some (JNum (Z.neg p) 0, c :: r)).
    rewrite H.
    change (N.of_uint (Pos.to_uint p)) with (Pos.of_uint (Pos.to_uint p)).
    rewrite DecimalPos.Unsigned.of_to. reflexivity.
Qed.

Lemma integer_toString_head n :
  exists c r, integer_toString n = c :: r
              /\ (is_digit c = true \/ c = ch "-").
Proof.
  destruct n as [|p|p]; unfold integer_toString.
  - eexists _, _. split; [reflexivity | left; reflexivity].
  - destruct (uint_chars_head (Pos.to_uint p)
                (DecimalPos.Unsigned.to_uint_nonnil p)) as (c & r & E & H).
    exists c, r. split; [exact E | left; exact H].
  - eexists _, _. split; [reflexivity | right; reflexivity].
Qed.

(** ** The text of a snapshot *)

Lemma parse_value_string f s tail :
  parse_value (S f) (QuoteJSONString s ++ tail) = Parsed (JStr s) tail.
Proof.
  unfold QuoteJSONString. cbn [List.app]. rewrite <- app_assoc.
  cbn [parse_value skip_ws List.app].
  change (is_json_ws 34%N) with false. cbv iota.
  change (34 =? ch "[")%N with false. change (34 =? ch "{")%N with false.
  change (34 =? 34)%N with true. cbv iota.
  rewrite parse_string_quote. reflexivity.
Qed.

Lemma parse_value_boolean f (b : bool) tail :
  parse_value (S f) ((if b then js "true" else js "false") ++ tail)
  = Parsed (JBool b) tail.
Proof. destruct b; reflexivity. Qed.

Lemma parse_value_null f tail :
  parse_value (S f) (js "null" ++ tail) = Parsed JNull tail.
Proof. reflexivity. Qed.

Lemma parse_value_number_head f c r :
  is_digit c = true \/ c = ch "-" ->
  parse_value (S f) (c :: r) =
  match parse_number (c :: r) with
  | Some (n, rest) => Parsed n rest
  | None => Malformed
  end.
Proof.
  intros Hc.
  assert (H : (48 <= c <= 57)%N \/ c = 45%N).
  { destruct Hc as [Hc| ->]; [left|right; reflexivity].
    unfold is_digit in Hc. apply andb_prop in Hc. destruct Hc as [H1 H2].
    apply N.leb_le in H1, H2. lia. }
  cbn [parse_value skip_ws].
  replace (is_json_ws c) with false.
  2:{ symmetry. unfold is_json_ws.
      repeat (apply orb_false_intro); apply N.eqb_neq; lia. }
  cbv iota.
  replace (c =? ch "[")%N with false
    by (symmetry; apply N.eqb_neq; change (ch "[") with 91%N; lia).
  replace (c =? ch "{")%N with false
    by (symmetry; apply N.eqb_neq; change (ch "{") with 123%N; lia).
  replace (c =? 34)%N with false by (symmetry; apply N.eqb_neq; lia).
  cbv iota.
  assert (Hs : forall lit x, (100 < x <= 120)%N ->
            starts_with (x :: lit) (c :: r) = None).
  { intros lit x Hx. cbn [starts_with].
    replace (x =? c)%N with false by (symmetry; apply N.eqb_neq; lia).
    reflexivity. }
  change (js "true") with (116%N :: js "rue").
  change (js "false") with (102%N :: js "alse").
  change (js "null") with (110%N :: js "ull").
  rewrite !Hs by lia. reflexivity.
Qed.

Lemma parse_value_integer f n c r :
  ends_number c ->
  parse_value (S f) (integer_toString n ++ c :: r)
  = Parsed (JNum n 0) (c :: r).
Proof.
  intros Hc.
  destruct (integer_toString_head n) as (x & xs & E & Hx).
  pose proof (parse_number_integer n c r Hc) as Hn.
  rewrite E in *. cbn [List.app] in *.
  rewrite parse_value_number_head by exact Hx.
  rewrite Hn. reflexivity.
Qed.

Lemma ends_number_comma : ends_number (ch ",").
Proof. repeat split. Qed.

Lemma parse_value_date f d tail :
  parse_value (S f) (JSON_stringify (VDate d) ++ tail)
  = Parsed (match d with
            | DateAt ms => JStr (toISOString ms)
            | InvalidDate => JNull
            end) tail.
Proof.
  destruct d as [|ms]; [reflexivity|].
  cbn [JSON_stringify]. apply parse_value_string.
Qed.

Lemma task_text_eq t tail :
  task_text t ++ tail =
  ch "{" :: QuoteJSONString (js "id") ++ ch ":" :: integer_toString (id t)
    ++ ch "," :: QuoteJSONString (js "text") ++ ch ":"
         :: QuoteJSONString (text t)
    ++ ch "," :: QuoteJSONString (js "completed") ++ ch ":"
         :: (if completed t then js "true" else js "false")
    ++ ch "," :: QuoteJSONString (js "createdAt") ++ ch ":"
         :: JSON_stringify (VDate (createdAt t))
    ++ ch "}" :: tail.
Proof.
  unfold task_text, task_record.
  cbn [JSON_stringify List.map join_commas fst snd].
  repeat (rewrite <- app_assoc; cbn [List.app]).
  reflexivity.
Qed.

Lemma parse_key f k tail :
  parse_members (S f) (QuoteJSONString k ++ ch ":" :: tail) =
  match parse_value f tail with
  | Parsed v r3 =>
      match skip_ws r3 with
      | c3 :: r4 =>
          if (c3 =? ch ",")%N then
            match parse_members f r4 with
            | Parsed members rest => Parsed ((k, v) :: members) rest
            | Malformed => Malformed
            | OutOfFuel => OutOfFuel
            end
          else if (c3 =? ch "}")%N then Parsed [(k, v)] r4
          else Malformed
      | [] => Malformed
      end
  | Malformed => Malformed
  | OutOfFuel => OutOfFuel
  end.
Proof.
  unfold QuoteJSONString. cbn [List.app]. rewrite <- app_assoc.
  cbn [parse_members skip_ws List.app].
  change (is_json_ws 34%N) with false. cbv iota.
  change (34 =? 34)%N with true. cbv iota.
  rewrite parse_string_quote. cbn [skip_ws].
  change (is_json_ws (ch ":")) with false. cbv iota.
  change (ch ":" =? ch ":")%N with true. cbv iota.
  reflexivity.
Qed.

Lemma parse_member_more f k vtext v more :
  parse_value f (vtext ++ ch "," :: more) = Parsed v (ch "," :: more) ->
  parse_members (S f) (QuoteJSONString k ++ ch ":" :: vtext ++ ch "," :: more)
  = match parse_members f more with
    | Parsed members rest => Parsed ((k, v) :: members) rest
    | Malformed => Malformed
    | OutOfFuel => OutOfFuel
    end.
Proof. intros H. rewrite parse_key, H. reflexivity. Qed.

Lemma parse_member_last f k vtext v rest :
  parse_value f (vtext ++ ch "}" :: rest) = Parsed v (ch "}" :: rest) ->
  parse_members (S f) (QuoteJSONString k ++ ch ":" :: vtext ++ ch "}" :: rest)
  = Parsed [(k, v)] rest.
Proof. intros H. rewrite parse_key, H. reflexivity. Qed.

(** The text of a task is read back as an object with its four members. *)
Lemma parse_value_task f t tail :
  parse_value (6 + f) (task_text t ++ tail) = Parsed (json_of_task t) tail.
Proof.
  rewrite task_text_eq.
  change (6 + f)%nat with (S (S (S (S (S (S f)))))).
  cbn [parse_value]. cbn [skip_ws].
  change (is_json_ws (ch "{")) with false. cbv iota.
  change (ch "{" =? ch "[")%N with false. change (ch "{" =? ch "{")%N with true.
  cbv iota.
  unfold QuoteJSONString at 1. cbn [List.app skip_ws].
  change (is_json_ws 34%N) with false. cbv iota.
  change (34 =? ch "}")%N with false. cbv iota.
  change (34%N :: (quote_chars (js "id") ++ [34%N]) ++ ?x)
    with (QuoteJSONString (js "id") ++ x).
  rewrite (parse_member_more _ _ _ (JNum (id t) 0))
    by (apply parse_value_integer, ends_number_comma).
  rewrite (parse_member_more _ _ _ (JStr (text t)))
    by apply parse_value_string.
  rewrite (parse_member_more _ _ _ (JBool (completed t)))
    by apply parse_value_boolean.
  rewrite (parse_member_last _ _ _ _ _ (parse_value_date _ _ _)).
  reflexivity.
Qed.

Lemma parse_elements_tasks l : forall f tail,
  l <> [] ->
  parse_elements (List.length l + 6 + f)
    (join_commas (List.map task_text l) ++ ch "]" :: tail)
  = Parsed (List.map json_of_task l) tail.
Proof.
  induction l as [|t l IH]; intros f tail Hl; [congruence|].
  destruct l as [|t' l'].
  - cbn [List.map join_commas List.length Nat.add parse_elements].
    rewrite (parse_value_task f t). reflexivity.
  - change (join_commas (List.map task_text (t :: t' :: l')))
      with (task_text t ++ ch "," :: join_commas (List.map task_text (t' :: l'))).
    rewrite <- app_assoc. cbn [List.app].
    change (List.length (t :: t' :: l') + 6 + f)%nat
      with (S (List.length (t' :: l') + 6 + f)).
    cbn [parse_elements].
    replace (List.length (t' :: l') + 6 + f)%nat
      with (6 + (List.length (t' :: l') + f))%nat at 1 by lia.
    rewrite parse_value_task. cbn [skip_ws].
    change (is_json_ws (ch ",")) with false. cbv iota.
    change (ch "," =? ch ",")%N with true. cbv iota.
    rewrite IH by discriminate. reflexivity.
Qed.

Lemma task_text_length t : (2 <= List.length (task_text t))%nat.
Proof.
  unfold task_text, task_record. cbn [JSON_stringify].
  cbn [List.length]. rewrite length_app. cbn [List.length]. lia.
Qed.

Lemma join_commas_length l :
  (2 * List.length l <= List.length (join_commas (List.map task_text l)))%nat.
Proof.
  induction l as [|t l IH]; [cbn; lia|].
  pose proof (task_text_length t) as Ht.
  destruct l as [|t' l'].
  - cbn [List.map join_commas List.length]. lia.
  - change (join_commas (List.map task_text (t :: t' :: l')))
      with (task_text t ++ ch "," :: join_commas (List.map task_text (t' :: l'))).
    rewrite length_app. cbn [List.length] in *. lia.
Qed.

Lemma task_text_head t :
  exists r, task_text t = ch "{" :: r.
Proof. eexists. reflexivity. Qed.

(** The text that [saveTasks] writes is read back by [JSON.parse] as the
    array of the tasks' objects. *)
Lemma JSON_parse_snapshot l :
  JSON_parse (JSON_stringify (VArray (List.map task_record l)))
  = Some (JArr (List.map json_of_task l)).
Proof.
  destruct l as [|t l]; [reflexivity|].
  set (ts := t :: l).
  assert (Hts : ts <> []) by discriminate.
  assert (Hn : (1 <= List.length ts)%nat) by (cbn; lia).
  cbn [JSON_stringify]. rewrite List.map_map.
  change (List.map (fun x => JSON_stringify (task_record x)) ts)
    with (List.map task_text ts).
  unfold JSON_parse, parse_fuel.
  pose proof (join_commas_length ts) as Hlen.
  set (body := join_commas (List.map task_text ts)) in *.
  assert (Hbody : exists r, body = ch "{" :: r).
  { subst body ts. destruct (task_text_head t) as (r & E).
    destruct l; cbn [List.map join_commas]; rewrite E; eexists; reflexivity. }
  cbn [List.length]. rewrite length_app. cbn [List.length].
  replace (2 * S (List.length body + 1) + 1)%nat
    with (S (List.length ts + 6
             + (2 * S (List.length body + 1) - List.length ts - 6)))%nat
    by lia.
  cbn [parse_value skip_ws].
  change (is_json_ws (ch "[")) with false. cbv iota.
  change (ch "[" =? ch "[")%N with true. cbv iota.
  destruct Hbody as (r & E).
  assert (Hskip : skip_ws (body ++ [ch "]"]) = ch "{" :: r ++ [ch "]"])
    by (rewrite E; reflexivity).
  rewrite Hskip.
  change (ch "{" =? ch "]")%N with false. cbv iota.
  rewrite (parse_elements_tasks ts _ [] Hts).
  reflexivity.
Qed.

(** ** Reading the objects back *)

Lemma revive_json_of_task t :
  well_formed t = true -> revive (json_of_task t) = Normal t.
Proof.
  unfold well_formed. intros H.
  destruct t as [i s b d]. cbn [id createdAt] in *.
  apply andb_prop in H. destruct H as [Hid Hd].
  apply andb_prop in Hid. destruct Hid as [Hlo Hhi].
  apply Z.leb_le in Hlo, Hhi.
  destruct d as [|ms]; [discriminate|].
  assert (Hrange : - maxTime <= ms <= maxTime).
  { unfold valid_time in Hd. apply andb_prop in Hd. destruct Hd as [H1 H2].
    apply Z.leb_le in H1, H2. lia. }
  unfold revive, json_of_task. cbn [id text completed createdAt].
  change (property _ (js "createdAt")) with (Some (JStr (toISOString ms))).
  change (property _ (js "id")) with (Some (JNum i 0)).
  change (property _ (js "text")) with (Some (JStr s)).
  change (property _ (js "completed")) with (Some (JBool b)).
  cbn [new_Date]. rewrite Date_parse_toISOString by exact Hrange.
  assert (Hsafe : safe_integer i 0 = Some i).
  { unfold safe_integer. change (0 <=? 0) with true. cbv iota.
    change (10 ^ 0) with 1. rewrite Z.mul_1_r.
    replace ((- maxSafeInteger <=? i) && (i <=? maxSafeInteger)) with true;
      [reflexivity|].
    symmetry. apply andb_true_intro. split; apply Z.leb_le; lia. }
  rewrite Hsafe. reflexivity.
Qed.

Lemma revive_all_tasks l :
  forallb well_formed l = true ->
  revive_all (List.map json_of_task l) = Normal l.
Proof.
  induction l as [|t l IH]; [reflexivity|].
  cbn [forallb]. intros H. apply andb_prop in H. destruct H as [Ht Hl].
  cbn [List.map revive_all]. rewrite revive_json_of_task by exact Ht.
  rewrite IH by exact Hl. reflexivity.
Qed.

(** ** The parser has fuel enough

    Every call of the parser leaves less text than it was given, so the
    depth of the recursion is bounded by the length of the text:
    [JSON_parse] never stops for lack of fuel, and [None] is a syntax
    error. *)

Lemma skip_ws_length s : (List.length (skip_ws s) <= List.length s)%nat.
Proof.
  induction s as [|c r IH]; [reflexivity|].
  cbn [skip_ws]. destruct (is_json_ws c); cbn [List.length] in *; lia.
Qed.

Lemma skip_ws_cons s c r :
  skip_ws s = c :: r -> (List.length r < List.length s)%nat.
Proof.
  intros H. pose proof (skip_ws_length s) as Hl. rewrite H in Hl.
  cbn [List.length] in Hl. lia.
Qed.

Lemma parse_string_chars_length n : forall s body rest,
  (List.length s <= n)%nat ->
  parse_string_chars s = Some (body, rest) ->
  (List.length rest < List.length s)%nat.
Proof.
  induction n as [|n IH]; intros s body rest Hn H.
  - destruct s; [discriminate | cbn in Hn; lia].
  - destruct s as [|c r]; [discriminate|].
    cbn [List.length] in *. cbn [parse_string_chars] in H.
    destruct (c =? 34)%N.
    { inversion H; subst. lia. }
    destruct (c =? 92)%N.
    { destruct r as [|e r1]; [discriminate|].
      destruct (e =? ch "u")%N.
      - destruct r1 as [|h1 [|h2 [|h3 [|h4 r2]]]]; try discriminate.
        destruct (hex4 h1 h2 h3 h4); [|discriminate].
        destruct (parse_string_chars r2) as [[b' r']|] eqn:E; [|discriminate].
        inversion H; subst. apply IH in E; cbn [List.length] in *; lia.
      - destruct (simple_escape e); [|discriminate].
        destruct (parse_string_chars r1) as [[b' r']|] eqn:E; [|discriminate].
        inversion H; subst. apply IH in E; cbn [List.length] in *; lia. }
    destruct (c <? 32)%N; [discriminate|].
    destruct (parse_string_chars r) as [[b' r']|] eqn:E; [|discriminate].
    inversion H; subst. apply IH in E; lia.
Qed.

Lemma span_digits_length s :
  (List.length (snd (span_digits s)) <= List.length s)%nat
  /\ (fst (span_digits s) <> Nil ->
      List.length (snd (span_digits s)) < List.length s)%nat.
Proof.
  induction s as [|c r [IH1 IH2]]; [split; [reflexivity | intros H; elim H; reflexivity]|].
  cbn [span_digits]. destruct (is_digit c).
  - destruct (span_digits r) as [d rest]. cbn [fst snd List.length] in *.
    split; [lia | intros _; lia].
  - cbn [fst snd]. split; [lia | intros H; elim H; reflexivity].
Qed.

Lemma parse_fraction_length s d r :
  parse_fraction s = Some (d, r) -> (List.length r <= List.length s)%nat.
Proof.
  unfold parse_fraction. destruct s as [|c s']; [intros H; inversion H; reflexivity|].
  destruct (c =? ch ".")%N.
  - pose proof (proj1 (span_digits_length s')) as Hl.
    destruct (span_digits s') as [d' r']. cbn [snd] in Hl.
    destruct d'; intros H; inversion H; subst; cbn [List.length]; lia.
  - intros H; inversion H; subst. lia.
Qed.

Lemma parse_exponent_length s v r :
  parse_exponent s = Some (v, r) -> (List.length r <= List.length s)%nat.
Proof.
  unfold parse_exponent. destruct s as [|c s']; [intros H; inversion H; reflexivity|].
  destruct ((c =? ch "e") || (c =? ch "E"))%N.
  - set (p := match s' with
              | [] => (false, s')
              | x :: r' =>
                  if (x =? ch "-")%N then (true, r')
                  else if (x =? ch "+")%N then (false, r') else (false, s')
              end).
    assert (Hp : (List.length (snd p) <= List.length s')%nat).
    { subst p. destruct s' as [|x r']; [reflexivity|].
      destruct (x =? ch "-")%N; [|destruct (x =? ch "+")%N];
        cbn [snd List.length]; lia. }
    destruct p as [neg r1]. cbn [snd] in Hp.
    pose proof (proj1 (span_digits_length r1)) as Hl.
    destruct (span_digits r1) as [d' r2]. cbn [snd] in Hl.
    destruct d'; intros H; inversion H; subst; cbn [List.length]; lia.
  - intros H; inversion H; subst. lia.
Qed.

Lemma parse_number_length s v r :
  parse_number s = Some (v, r) -> (List.length r < List.length s)%nat.
Proof.
  unfold parse_number.
  set (p := match s with
            | [] => (false, s)
            | c :: r0 => if (c =? ch "-")%N then (true, r0) else (false, s)
            end).
  assert (Hp : (List.length (snd p) <= List.length s)%nat).
  { subst p. destruct s as [|c r0]; [reflexivity|].
    destruct (c =? ch "-")%N; cbn [snd List.length]; lia. }
  destruct p as [neg s1]. cbn [snd] in Hp.
  pose proof (proj2 (span_digits_length s1)) as Hl.
  destruct (span_digits s1) as [d s2]. cbn [fst snd] in Hl.
  destruct (int_part_ok d) eqn:Hok; [|discriminate].
  assert (Hd : d <> Nil) by (intros ->; discriminate).
  specialize (Hl Hd).
  destruct (parse_fraction s2) as [[frac s3]|] eqn:Ef; [|discriminate].
  destruct (parse_exponent s3) as [[ex s4]|] eqn:Ee; [|discriminate].
  apply parse_fraction_length in Ef. apply parse_exponent_length in Ee.
  intros H; inversion H; subst. lia.
Qed.

Lemma starts_with_length p : forall s r,
  starts_with p s = Some r -> (List.length r + List.length p = List.length s)%nat.
Proof.
  induction p as [|x p IH]; intros s r H.
  - inversion H; subst. cbn. lia.
  - destruct s as [|y s']; [discriminate|]. cbn [starts_with] in H.
    destruct (x =? y)%N; [|discriminate].
    apply IH in H. cbn [List.length]. lia.
Qed.

Lemma parse_shrinks fuel :
  (forall s v r, parse_value fuel s = Parsed v r ->
                 (List.length r < List.length s)%nat)
  /\ (forall s v r, parse_elements fuel s = Parsed v r ->
                    (List.length r < List.length s)%nat)
  /\ (forall s v r, parse_members fuel s = Parsed v r ->
                    (List.length r < List.length s)%nat).
Proof.
  induction fuel as [|fuel (IHv & IHe & IHm)];
    [repeat split; intros; discriminate|].
  repeat split; intros s v r H.
  - cbn [parse_value] in H.
    destruct (skip_ws s) as [|c r0] eqn:Es; [discriminate|].
    apply skip_ws_cons in Es as Hs.
    destruct (c =? ch "[")%N.
    { destruct (skip_ws r0) as [|c' r'] eqn:Es'; [discriminate|].
      apply skip_ws_cons in Es'.
      destruct (c' =? ch "]")%N; [inversion H; subst; lia|].
      destruct (parse_elements fuel r0) as [x rest| |] eqn:E; try discriminate.
      inversion H; subst. apply IHe in E. lia. }
    destruct (c =? ch "{")%N.
    { destruct (skip_ws r0) as [|c' r'] eqn:Es'; [discriminate|].
      apply skip_ws_cons in Es'.
      destruct (c' =? ch "}")%N; [inversion H; subst; lia|].
      destruct (parse_members fuel r0) as [x rest| |] eqn:E; try discriminate.
      inversion H; subst. apply IHm in E. lia. }
    destruct (c =? 34)%N.
    { destruct (parse_string_chars r0) as [[str rest]|] eqn:E; [|discriminate].
      inversion H; subst.
      apply (parse_string_chars_length _ _ _ _ (le_n _)) in E. lia. }
    assert (Hc : (List.length (c :: r0) <= List.length s)%nat)
      by (cbn [List.length]; lia).
    destruct (starts_with (js "true") (c :: r0)) eqn:E1.
    { inversion H; subst. apply starts_with_length in E1.
      change (List.length (js "true")) with 4%nat in E1. lia. }
    destruct (starts_with (js "false") (c :: r0)) eqn:E2.
    { inversion H; subst. apply starts_with_length in E2.
      change (List.length (js "false")) with 5%nat in E2. lia. }
    destruct (starts_with (js "null") (c :: r0)) eqn:E3.
    { inversion H; subst. apply starts_with_length in E3.
      change (List.length (js "null")) with 4%nat in E3. lia. }
    destruct (parse_number (c :: r0)) as [[n rest]|] eqn:E4; [|discriminate].
    inversion H; subst. apply parse_number_length in E4. lia.
  - cbn [parse_elements] in H.
    destruct (parse_value fuel s) as [x r1| |] eqn:E; try discriminate.
    apply IHv in E.
    destruct (skip_ws r1) as [|c r'] eqn:Es; [discriminate|].
    apply skip_ws_cons in Es.
    destruct (c =? ch ",")%N.
    { destruct (parse_elements fuel r') as [xs rest| |] eqn:E'; try discriminate.
      inversion H; subst. apply IHe in E'. lia. }
    destruct (c =? ch "]")%N; [|discriminate].
    inversion H; subst. lia.
  - cbn [parse_members] in H.
    destruct (skip_ws s) as [|c r0] eqn:Es; [discriminate|].
    apply skip_ws_cons in Es.
    destruct (c =? 34)%N; [|discriminate].
    destruct (parse_string_chars r0) as [[key r1]|] eqn:Ek; [|discriminate].
    apply (parse_string_chars_length _ _ _ _ (le_n _)) in Ek.
    destruct (skip_ws r1) as [|c1 r2] eqn:Es1; [discriminate|].
    apply skip_ws_cons in Es1.
    destruct (c1 =? ch ":")%N; [|discriminate].
    destruct (parse_value fuel r2) as [x r3| |] eqn:E; try discriminate.
    apply IHv in E.
    destruct (skip_ws r3) as [|c3 r4] eqn:Es3; [discriminate|].
    apply skip_ws_cons in Es3.
    destruct (c3 =? ch ",")%N.
    { destruct (parse_members fuel r4) as [xs rest| |] eqn:E'; try discriminate.
      inversion H; subst. apply IHm in E'. lia. }
    destruct (c3 =? ch "}")%N; [|discriminate].
    inversion H; subst. lia.
Qed.

Lemma parse_fuel_enough fuel :
  (forall s, (2 * List.length s + 1 <= fuel)%nat ->
             parse_value fuel s <> OutOfFuel)
  /\ (forall s, (2 * List.length s + 2 <= fuel)%nat ->
                parse_elements fuel s <> OutOfFuel)
  /\ (forall s, (2 * List.length s + 2 <= fuel)%nat ->
                parse_members fuel s <> OutOfFuel).
Proof.
  induction fuel as [|fuel (IHv & IHe & IHm)];
    [repeat split; intros; lia|].
  destruct (parse_shrinks fuel) as (Sv & Se & Sm).
  repeat split; intros s Hf.
  - cbn [parse_value].
    destruct (skip_ws s) as [|c r0] eqn:Es; [discriminate|].
    apply skip_ws_cons in Es.
    destruct (c =? ch "[")%N.
    { destruct (skip_ws r0) as [|c' r']; [discriminate|].
      destruct (c' =? ch "]")%N; [discriminate|].
      specialize (IHe r0 ltac:(lia)).
      destruct (parse_elements fuel r0); congruence. }
    destruct (c =? ch "{")%N.
    { destruct (skip_ws r0) as [|c' r']; [discriminate|].
      destruct (c' =? ch "}")%N; [discriminate|].
      specialize (IHm r0 ltac:(lia)).
      destruct (parse_members fuel r0); congruence. }
    destruct (c =? 34)%N.
    { destruct (parse_string_chars r0) as [[? ?]|]; discriminate. }
    destruct (starts_with (js "true") (c :: r0)); [discriminate|].
    destruct (starts_with (js "false") (c :: r0)); [discriminate|].
    destruct (starts_with (js "null") (c :: r0)); [discriminate|].
    destruct (parse_number (c :: r0)) as [[? ?]|]; discriminate.
  - cbn [parse_elements].
    specialize (IHv s ltac:(lia)).
    destruct (parse_value fuel s) as [x r1| |] eqn:E; try congruence.
    apply Sv in E.
    destruct (skip_ws r1) as [|c r'] eqn:Es; [discriminate|].
    apply skip_ws_cons in Es.
    destruct (c =? ch ",")%N.
    { specialize (IHe r' ltac:(lia)).
      destruct (parse_elements fuel r'); congruence. }
    destruct (c =? ch "]")%N; discriminate.
  - cbn [parse_members].
    destruct (skip_ws s) as [|c r0] eqn:Es; [discriminate|].
    apply skip_ws_cons in Es.
    destruct (c =? 34)%N; [|discriminate].
    destruct (parse_string_chars r0) as [[key r1]|] eqn:Ek; [|discriminate].
    apply (parse_string_chars_length _ _ _ _ (le_n _)) in Ek.
    destruct (skip_ws r1) as [|c1 r2] eqn:Es1; [discriminate|].
    apply skip_ws_cons in Es1.
    destruct (c1 =? ch ":")%N; [|discriminate].
    specialize (IHv r2 ltac:(lia)).
    destruct (parse_value fuel r2) as [x r3| |] eqn:E; try congruence.
    apply Sv in E.
    destruct (skip_ws r3) as [|c3 r4] eqn:Es3; [discriminate|].
    apply skip_ws_cons in Es3.
    destruct (c3 =? ch ",")%N.
    { specialize (IHm r4 ltac:(lia)).
      destruct (parse_members fuel r4); congruence. }
    destruct (c3 =? ch "}")%N; discriminate.
Qed.

(** [JSON_parse] runs the parser to its end. *)
Lemma JSON_parse_total s : parse_value (parse_fuel s) s <> OutOfFuel.
Proof. apply parse_fuel_enough. unfold parse_fuel. lia. Qed.

(* ================================================================== *)
(** * Part III: the task store *)
(* ================================================================== *)

(** ** Lists of tasks *)

Lemma jsstring_eqb_eq a : forall b, jsstring_eqb a b = true <-> a = b.
Proof.
  induction a as [|x a IH]; intros [|y b]; cbn [jsstring_eqb];
    try (split; [discriminate | congruence]); [tauto|].
  rewrite andb_true_iff, N.eqb_eq, IH.
  split; [intros [-> ->]; reflexivity | intros H; inversion H; tauto].
Qed.

Lemma jsstring_eqb_neq a b : a <> b -> jsstring_eqb a b = false.
Proof.
  intros H. destruct (jsstring_eqb a b) eqn:E; [|reflexivity].
  apply jsstring_eqb_eq in E. contradiction.
Qed.

Lemma selection_filter p l : selection p l (List.filter p l).
Proof.
  induction l as [|t l IH]; cbn [List.filter]; [constructor|].
  destruct (p t) eqn:E; constructor; assumption.
Qed.

(** A selection holds the elements that satisfy the predicate, and
    only those. *)
Lemma selection_In p l r :
  selection p l r -> forall t, In t r <-> In t l /\ p t = true.
Proof.
  induction 1 as [|t l r Hp Hs IH|t l r Hp Hs IH]; intros u; cbn [In].
  - tauto.
  - rewrite IH. split.
    + intros [->|[H1 H2]]; auto.
    + intros [[->|H1] H2]; auto.
  - rewrite IH. split.
    + intros [H1 H2]; auto.
    + intros [[->|H1] H2]; [congruence | auto].
Qed.

(** The first task that [find] returns splits the array in two. *)
Lemma find_split (p : Task -> bool) l t :
  List.find p l = Some t ->
  exists l1 l2, l = l1 ++ t :: l2 /\ p t = true
                /\ (forall u, In u l1 -> p u = false)
                /\ forall f, assign_found p f l = l1 ++ f t :: l2.
Proof.
  induction l as [|x l IH]; [discriminate|].
  cbn [List.find]. destruct (p x) eqn:E.
  - intros H; inversion H; subst x. exists [], l.
    repeat split; [exact E | intros u [] |].
    intros f. cbn [assign_found List.app]. rewrite E. reflexivity.
  - intros H. destruct (IH H) as (l1 & l2 & -> & Hp & Hl1 & Hf).
    exists (x :: l1), l2. repeat split; [exact Hp | |].
    + intros u [->|Hu]; [exact E | apply Hl1, Hu].
    + intros f. cbn [assign_found List.app]. rewrite E, Hf. reflexivity.
Qed.


Lemma find_present (i : Z) l :
  In i (List.map id l) ->
  exists t, List.find (fun t => id t =? i) l = Some t.
Proof.
  intros H. apply in_map_iff in H. destruct H as (u & Hu & Hin).
  destruct (List.find (fun t => id t =? i) l) as [t|] eqn:E;
    [exists t; reflexivity|].
  exfalso. apply (List.find_none _ _ E) in Hin.
  apply Z.eqb_neq in Hin. contradiction.
Qed.

Lemma filter_absent (i : Z) l :
  (forall t, In t l -> id t <> i) ->
  List.filter (fun task => negb (id task =? i)) l = l.
Proof.
  induction l as [|x l IH]; intros H; [reflexivity|].
  cbn [List.filter].
  replace (id x =? i) with false
    by (symmetry; apply Z.eqb_neq, H; left; reflexivity).
  cbn [negb]. f_equal. apply IH. intros t Ht. apply H. right. exact Ht.
Qed.

(** ** Adding a task (C1, C2) *)

(** C1, as the program has it: when the trimmed text of the input is not
    empty and has at most 100 characters, [addTask] appends one task to
    the collection, whose size grows by one; the new task is not
    completed, its text is the trimmed input and its id the reading of
    the clock; the collection is written to the storage; and the call
    returns no value ([undefined]), not the new task. *)
Theorem addTask_appends (now created : Z) (w : World) :
  trim (taskInput w) <> [] ->
  (List.length (trim (taskInput w)) <= 100)%nat ->
  let task := mkTask now (trim (taskInput w)) false (DateAt created) in
  tasks (after (addTask now created) w) = tasks w ++ [task]
  /\ List.length (tasks (after (addTask now created) w))
     = S (List.length (tasks w))
  /\ localStorage (after (addTask now created) w)
     = Some (JSON_stringify
               (VArray (List.map task_record (tasks w ++ [task]))))
  /\ result (addTask now created) w = Normal undefined.
Proof.
  intros Hne Hlen task. subst task.
  unfold after, result, addTask, bind, get.
  destruct (trim (taskInput w)) as [|c r] eqn:E; [congruence|].
  cbn [is_empty].
  destruct (Nat.ltb_spec 100 (List.length (c :: r))) as [H|H]; [lia|].
  repeat split.
  cbn -[JSON_stringify]. rewrite length_app. cbn [List.length]. lia.
Qed.

Lemma addTask_appends_witness :
  tasks (after (addTask 1700000000000 1700000000001)
           (set_taskInput (js "  Buy milk ") (fresh_page None)))
  = [mkTask 1700000000000 (js "Buy milk") false (DateAt 1700000000001)].
Proof.
  apply (addTask_appends 1700000000000 1700000000001
           (set_taskInput (js "  Buy milk ") (fresh_page None))).
  - vm_compute. discriminate.
  - vm_compute. lia.
Defined.

(** The claim C1 as the specification words it fails on its last
    clause: the call below adds the task and returns [undefined]. *)
Lemma addTask_returns_undefined :
  tasks (after (addTask 1700000000000 1700000000001)
           (set_taskInput (js "Buy milk") (fresh_page None)))
  = [mkTask 1700000000000 (js "Buy milk") false (DateAt 1700000000001)]
  /\ result (addTask 1700000000000 1700000000001)
       (set_taskInput (js "Buy milk") (fresh_page None))
     = Normal undefined
  /\ result (addTask 1700000000000 1700000000001)
       (set_taskInput (js "Buy milk") (fresh_page None))
     <> Normal (object (mkTask 1700000000000 (js "Buy milk") false
                          (DateAt 1700000000001))).
Proof. repeat split. vm_compute. discriminate. Qed.

(** C2: [addTask] reports the empty-text error exactly when the trimmed
    input is empty and the too-long error exactly when it has more than
    100 characters; in both cases nothing but the list of alerts
    changes, so the collection and the storage are as they were. *)
Theorem addTask_validation (now created : Z) (w : World) :
  (alerts (after (addTask now created) w) = alerts w ++ [msg_empty]
   <-> trim (taskInput w) = [])
  /\ (alerts (after (addTask now created) w) = alerts w ++ [msg_too_long]
      <-> (100 < List.length (trim (taskInput w)))%nat)
  /\ (trim (taskInput w) = [] ->
      after (addTask now created) w = set_alerts (alerts w ++ [msg_empty]) w)
  /\ ((100 < List.length (trim (taskInput w)))%nat ->
      after (addTask now created) w
      = set_alerts (alerts w ++ [msg_too_long]) w)
  /\ result (addTask now created) w = Normal undefined.
Proof.
  unfold after, result, addTask, bind, get.
  destruct (trim (taskInput w)) as [|c r] eqn:E.
  - cbn. repeat split; try tauto; try (cbn [List.length]; lia);
      alerts_differ.
  - cbn [is_empty].
    destruct (Nat.ltb_spec 100 (List.length (c :: r))) as [H|H].
    + cbn. repeat split; try tauto; try discriminate; alerts_differ.
    + cbn -[JSON_stringify].
      repeat split; try discriminate; try (cbn [List.length] in *; lia);
        alerts_differ.
Qed.

Lemma addTask_validation_witness :
  after (addTask 5 5) (set_taskInput (js "   ") (fresh_page None))
  = set_alerts
      (alerts (set_taskInput (js "   ") (fresh_page None)) ++ [msg_empty])
      (set_taskInput (js "   ") (fresh_page None))
  /\ after (addTask 5 5)
       (set_taskInput (List.repeat 97%N 101) (fresh_page None))
     = set_alerts
         (alerts (set_taskInput (List.repeat 97%N 101) (fresh_page None))
            ++ [msg_too_long])
         (set_taskInput (List.repeat 97%N 101) (fresh_page None)).
Proof.
  split.
  - destruct (addTask_validation 5 5
                (set_taskInput (js "   ") (fresh_page None)))
      as (_ & _ & H & _).
    apply H. reflexivity.
  - destruct (addTask_validation 5 5
                (set_taskInput (List.repeat 97%N 101) (fresh_page None)))
      as (_ & _ & _ & H & _).
    apply H. vm_compute. lia.
Defined.

(** The two scenarios of the specification: the empty input and the
    input of blanks. *)
Example addTask_empty_inputs :
  after (addTask 5 5) (set_taskInput (js "") (fresh_page None))
  = set_alerts [msg_empty] (set_taskInput (js "") (fresh_page None))
  /\ after (addTask 5 5) (set_taskInput (js "   ") (fresh_page None))
     = set_alerts [msg_empty] (set_taskInput (js "   ") (fresh_page None)).
Proof. split; reflexivity. Qed.

(** ** Filtering (C5) *)

Lemma setFilter_effect filter w :
  tasks (after (setFilter filter) w) = tasks w
  /\ currentFilter (after (setFilter filter) w) = filter.
Proof. split; reflexivity. Qed.

(** C5: after [setFilter], [getFilteredTasks] is the selection of the
    tasks that are not completed under [active], of the completed ones
    under [completed], and the whole collection under [all] and under
    any other value; a selection keeps the order of the collection. *)
Theorem getFilteredTasks_selection (w : World) :
  selection (fun t => negb (completed t)) (tasks w)
    (getFilteredTasks (after (setFilter (js "active")) w))
  /\ selection (fun t => completed t) (tasks w)
       (getFilteredTasks (after (setFilter (js "completed")) w))
  /\ getFilteredTasks (after (setFilter (js "all")) w) = tasks w
  /\ forall filter,
       filter <> js "active" -> filter <> js "completed" ->
       getFilteredTasks (after (setFilter filter) w) = tasks w.
Proof.
  repeat split.
  - apply selection_filter.
  - apply selection_filter.
  - intros filter Ha Hc. unfold getFilteredTasks.
    destruct (setFilter_effect filter w) as [-> ->].
    rewrite (jsstring_eqb_neq _ _ Ha), (jsstring_eqb_neq _ _ Hc).
    reflexivity.
Qed.

Lemma getFilteredTasks_selection_witness :
  getFilteredTasks (after (setFilter (js "done")) two_tasks)
  = tasks two_tasks.
Proof.
  destruct (getFilteredTasks_selection two_tasks) as (_ & _ & _ & H).
  apply H; vm_compute; discriminate.
Defined.

(** The second scenario of the specification: add "A", add "B", toggle
    "A"; the completed view lists "A" and the active view lists "B". *)
Example filter_scenario :
  let w := run [Add (js "A") 1 1; Add (js "B") 2 2; Toggle 1]
             (fresh_page None) in
  List.map text (getFilteredTasks (after (setFilter (js "completed")) w))
  = [js "A"]
  /\ List.map text (getFilteredTasks (after (setFilter (js "active")) w))
     = [js "B"]
  /\ List.map text (getFilteredTasks (after (setFilter (js "other")) w))
     = [js "A"; js "B"].
Proof. repeat split. Qed.

(** ** Editing (C6) *)



(** An edit to a text of 101 characters goes through. *)
Example saveEdit_long_text :
  let w := run [Add (js "A") 1 1] (fresh_page None) in
  List.map text (tasks (after (saveEdit 1 (List.repeat 97%N 101)) w))
  = [List.repeat 97%N 101]
  /\ alerts (after (saveEdit 1 (List.repeat 97%N 101)) w) = [].
Proof. split; reflexivity. Qed.

(** ** Toggling (C7, C10) *)

Lemma toggleTask_tasks i w t :
  List.find (fun t => id t =? i) (tasks w) = Some t ->
  tasks (after (toggleTask i) w)
  = assign_found (fun t => id t =? i)
      (fun task => set_completed (negb (completed task)) task) (tasks w)
  /\ currentFilter (after (toggleTask i) w) = currentFilter w.
Proof.
  intros F. unfold after, toggleTask, bind, get. rewrite F.
  split; reflexivity.
Qed.

(** C10: [toggleTask] of an id of the collection changes the
    [completed] of the first task with that id and nothing else of the
    collection: the tasks before and after it stay, in their order, the
    task keeps its id, text and date, and the filter stays. *)
Theorem toggleTask_frame (i : Z) (w : World) :
  In i (ids w) ->
  exists l1 t l2,
    tasks w = l1 ++ t :: l2
    /\ id t = i /\ (forall u, In u l1 -> id u <> i)
    /\ tasks (after (toggleTask i) w)
       = l1 ++ mkTask (id t) (text t) (negb (completed t)) (createdAt t) :: l2
    /\ currentFilter (after (toggleTask i) w) = currentFilter w
    /\ result (toggleTask i) w = Normal undefined.
Proof.
  intros Hin. destruct (find_present i _ Hin) as (t & F).
  destruct (toggleTask_tasks i w t F) as [Ht Hf].
  destruct (find_split _ _ _ F) as (l1 & l2 & El & Hi & Hl1 & Hassign).
  exists l1, t, l2. rewrite Ht, Hassign. apply Z.eqb_eq in Hi.
  repeat split; try assumption.
  - intros u Hu. apply Z.eqb_neq, Hl1, Hu.
  - unfold result, toggleTask, bind, get. rewrite F. reflexivity.
Qed.

Lemma toggleTask_frame_witness :
  exists l1 t l2,
    tasks (run [Add (js "A") 1 1; Add (js "B") 2 2] (fresh_page None))
    = l1 ++ t :: l2
    /\ id t = 2 /\ (forall u, In u l1 -> id u <> 2)
    /\ tasks (after (toggleTask 2)
                (run [Add (js "A") 1 1; Add (js "B") 2 2] (fresh_page None)))
       = l1 ++ mkTask (id t) (text t) (negb (completed t)) (createdAt t) :: l2
    /\ currentFilter
         (after (toggleTask 2)
            (run [Add (js "A") 1 1; Add (js "B") 2 2] (fresh_page None)))
       = currentFilter
           (run [Add (js "A") 1 1; Add (js "B") 2 2] (fresh_page None))
    /\ result (toggleTask 2)
         (run [Add (js "A") 1 1; Add (js "B") 2 2] (fresh_page None))
       = Normal undefined.
Proof.
  apply (toggleTask_frame 2
           (run [Add (js "A") 1 1; Add (js "B") 2 2] (fresh_page None))).
  vm_compute. right. left. reflexivity.
Defined.

Lemma assign_found_twice (p : Task -> bool) f g l :
  (forall t, p t = true -> p (g t) = true) ->
  assign_found p f (assign_found p g l)
  = assign_found p (fun t => f (g t)) l.
Proof.
  intros Hp. induction l as [|x l IH]; [reflexivity|].
  cbn [assign_found]. destruct (p x) eqn:E.
  - cbn [assign_found]. rewrite (Hp x E). reflexivity.
  - cbn [assign_found]. rewrite E, IH. reflexivity.
Qed.

Lemma assign_found_same (p : Task -> bool) f l :
  (forall t, f t = t) -> assign_found p f l = l.
Proof.
  intros Hf. induction l as [|x l IH]; [reflexivity|].
  cbn [assign_found]. destruct (p x); [rewrite Hf | rewrite IH]; reflexivity.
Qed.

(** C7: two [toggleTask] of an id of the collection, one after the
    other: the first negates the [completed] of the task that [find]
    returns, the second brings the collection back to what it was. *)
Theorem toggleTask_twice (i : Z) (w : World) :
  In i (ids w) ->
  exists t,
    List.find (fun t => id t =? i) (tasks w) = Some t
    /\ List.find (fun t => id t =? i) (tasks (after (toggleTask i) w))
       = Some (mkTask (id t) (text t) (negb (completed t)) (createdAt t))
    /\ tasks (after (toggleTask i) (after (toggleTask i) w)) = tasks w
    /\ currentFilter (after (toggleTask i) (after (toggleTask i) w))
       = currentFilter w.
Proof.
  intros Hin. destruct (find_present i _ Hin) as (t & F).
  destruct (toggleTask_tasks i w t F) as [Ht Hf].
  destruct (find_split _ _ _ F) as (l1 & l2 & El & Hi & Hl1 & Hassign).
  assert (F' : List.find (fun t => id t =? i) (tasks (after (toggleTask i) w))
               = Some (set_completed (negb (completed t)) t)).
  { rewrite Ht, Hassign.
    clear - Hi Hl1. induction l1 as [|x l1 IH]; cbn [List.app List.find].
    - cbn [set_completed id]. rewrite Hi. reflexivity.
    - rewrite (Hl1 x (or_introl eq_refl)). apply IH.
      intros u Hu. apply Hl1. right. exact Hu. }
  exists t. split; [exact F|]. split; [exact F'|].
  destruct (toggleTask_tasks i _ _ F') as [Ht' Hf'].
  rewrite Ht', Hf', Ht, Hf. split; [|reflexivity].
  rewrite assign_found_twice by (intros u Hu; exact Hu).
  apply assign_found_same. intros [a b c d]. unfold set_completed.
  cbn [id text completed createdAt]. rewrite negb_involutive. reflexivity.
Qed.

Lemma toggleTask_twice_witness :
  exists t,
    List.find (fun t => id t =? 1)
      (tasks (run [Add (js "A") 1 1; Add (js "B") 2 2] (fresh_page None)))
    = Some t
    /\ List.find (fun t => id t =? 1)
         (tasks (after (toggleTask 1)
                   (run [Add (js "A") 1 1; Add (js "B") 2 2]
                      (fresh_page None))))
       = Some (mkTask (id t) (text t) (negb (completed t)) (createdAt t))
    /\ tasks (after (toggleTask 1)
                (after (toggleTask 1)
                   (run [Add (js "A") 1 1; Add (js "B") 2 2]
                      (fresh_page None))))
       = tasks (run [Add (js "A") 1 1; Add (js "B") 2 2] (fresh_page None))
    /\ currentFilter
         (after (toggleTask 1)
            (after (toggleTask 1)
               (run [Add (js "A") 1 1; Add (js "B") 2 2] (fresh_page None))))
       = currentFilter
           (run [Add (js "A") 1 1; Add (js "B") 2 2] (fresh_page None)).
Proof.
  apply (toggleTask_twice 1
           (run [Add (js "A") 1 1; Add (js "B") 2 2] (fresh_page None))).
  vm_compute. left. reflexivity.
Defined.

(** ** Ids that are not in the collection (C8) *)




(** ** Ids (C9) *)

(** C9 fails in the program: two additions that read the same time from
    the clock give two tasks the same id. *)
Theorem same_tick_same_id :
  ids (run [Add (js "A") 1000 1000; Add (js "B") 1000 1000] (fresh_page None))
  = [1000; 1000]
  /\ List.map text
       (tasks (run [Add (js "A") 1000 1000; Add (js "B") 1000 1000]
                 (fresh_page None)))
     = [js "A"; js "B"]
  /\ ~ NoDup
         (ids (run [Add (js "A") 1000 1000; Add (js "B") 1000 1000]
                 (fresh_page None))).
Proof.
  repeat split. intros H. vm_compute in H.
  inversion H as [|x l Hx _]; subst. apply Hx. left. reflexivity.
Qed.

(** What a shared id does: the box of "B" toggles "A". *)
Example same_tick_toggles_the_other :
  List.map (fun t => (text t, completed t))
    (tasks (run [Add (js "A") 1000 1000; Add (js "B") 1000 1000; Toggle 1000]
              (fresh_page None)))
  = [(js "A", true); (js "B", false)].
Proof. reflexivity. Qed.

Lemma assign_found_ids (p : Task -> bool) f l :
  (forall t, id (f t) = id t) ->
  List.map id (assign_found p f l) = List.map id l.
Proof.
  intros Hf. induction l as [|x l IH]; [reflexivity|].
  cbn [assign_found]. destruct (p x); cbn [List.map].
  - rewrite Hf. reflexivity.
  - rewrite IH. reflexivity.
Qed.

Lemma NoDup_map_filter (p : Task -> bool) l :
  NoDup (List.map id l) -> NoDup (List.map id (List.filter p l)).
Proof.
  induction l as [|x l IH]; cbn [List.map List.filter]; [auto|].
  intros H. inversion H as [|? ? Hx Hl]; subst.
  destruct (p x); [|auto]. cbn [List.map]. constructor; [|auto].
  intros Hin. apply Hx. apply in_map_iff in Hin.
  destruct Hin as (u & Hu & Hin). apply List.filter_In in Hin.
  apply in_map_iff. exists u. tauto.
Qed.

Lemma Forall_map_filter (P : Z -> Prop) (p : Task -> bool) l :
  Forall P (List.map id l) -> Forall P (List.map id (List.filter p l)).
Proof.
  rewrite !Forall_forall. intros H i Hin. apply H.
  apply in_map_iff in Hin. destruct Hin as (u & Hu & Hin).
  apply List.filter_In in Hin. apply in_map_iff. exists u. tauto.
Qed.

(** X14: what does hold of the ids.  They stay distinct as long as the
    clock moves between any two additions: from a collection with
    distinct ids, none of them later than [last], any sequence of store
    operations whose additions read strictly increasing times after
    [last] leaves a collection with distinct ids. *)
Lemma ids_distinct_while_clock_increases ops : forall last w,
  clock_increases last ops ->
  NoDup (ids w) -> Forall (fun i => i <= last) (ids w) ->
  NoDup (ids (run ops w)).
Proof.
  unfold run.
  induction ops as [|o ops IH]; intros last w Hclock Hnd Hle; [exact Hnd|].
  cbn [List.fold_left].
  destruct o as [raw now created|i|i|i raw| |]; cbn [clock_increases] in Hclock.
  - destruct Hclock as [Hlt Hclock].
    assert (Hstep : ids (step w (Add raw now created)) = ids w
                    \/ ids (step w (Add raw now created)) = ids w ++ [now]).
    { unfold step, after, addTask, bind, get, ids.
      cbn [taskInput set_taskInput].
      destruct (trim raw) as [|c r]; [left; reflexivity|]. cbn [is_empty].
      destruct (100 <? List.length (c :: r))%nat; [left; reflexivity|].
      right. cbn -[JSON_stringify]. rewrite List.map_app. reflexivity. }
    apply (IH now); [exact Hclock | |].
    + destruct Hstep as [->| ->]; [exact Hnd|].
      apply NoDup_app; repeat split; [exact Hnd | repeat constructor; auto |].
      intros x Hx [<-|[]]. rewrite Forall_forall in Hle.
      specialize (Hle _ Hx). lia.
    + destruct Hstep as [->| ->].
      * eapply Forall_impl; [|exact Hle]. cbn. intros; lia.
      * apply Forall_app. split.
        -- eapply Forall_impl; [|exact Hle]. cbn. intros; lia.
        -- repeat constructor. lia.
  - apply (IH last); [exact Hclock | |];
      [apply NoDup_map_filter, Hnd | apply Forall_map_filter, Hle].
  - assert (Hstep : ids (step w (Toggle i)) = ids w).
    { unfold step, after, toggleTask, bind, get, ids.
      destruct (List.find _ (tasks w)); [|reflexivity].
      cbn -[JSON_stringify]. apply assign_found_ids. reflexivity. }
    apply (IH last); [exact Hclock | |]; rewrite Hstep; assumption.
  - assert (Hstep : ids (step w (Edit i raw)) = ids w).
    { unfold step, after, saveEdit, bind, get, ids.
      destruct (trim raw); [reflexivity|]. cbn [is_empty].
      destruct (List.find _ (tasks w)); [|reflexivity].
      cbn -[JSON_stringify]. apply assign_found_ids. reflexivity. }
    apply (IH last); [exact Hclock | |]; rewrite Hstep; assumption.
  - apply (IH last); [exact Hclock | |];
      [apply NoDup_map_filter, Hnd | apply Forall_map_filter, Hle].
  - apply (IH last); [exact Hclock | |]; constructor.
Qed.

(** ** Saving and loading (C3, C4) *)

Lemma saveTasks_storage w :
  localStorage (after saveTasks w)
  = Some (JSON_stringify (VArray (List.map task_record (tasks w)))).
Proof. reflexivity. Qed.

Lemma loadTasks_stored w stored :
  localStorage w = Some stored -> stored <> [] ->
  loadTasks w =
  match JSON_parse_or_throw stored with
  | Normal data =>
      match map_revive data with
      | Normal loaded => (Normal undefined, set_tasks loaded w)
      | Throw e =>
          (Normal undefined,
           set_tasks [] (set_console
                           (console w ++ [(js "Error loading tasks:", e)]) w))
      | Beyond => (Beyond, w)
      end
  | Throw e =>
      (Normal undefined,
       set_tasks [] (set_console
                       (console w ++ [(js "Error loading tasks:", e)]) w))
  | Beyond => (Beyond, w)
  end.
Proof.
  intros Hs Hne. unfold loadTasks, bind, get. rewrite Hs.
  destruct stored as [|c r]; [congruence|]. cbn [is_empty].
  unfold try_catch, bind, complete.
  destruct (JSON_parse_or_throw (c :: r)) as [data|e|]; try reflexivity.
  destruct (map_revive data) as [loaded|e|]; reflexivity.
Qed.

(** [loadTasks] on the text of a collection of well-formed tasks. *)
Lemma loadTasks_reads_snapshot (w0 : World) (l : list Task) :
  forallb well_formed l = true ->
  localStorage w0
  = Some (JSON_stringify (VArray (List.map task_record l))) ->
  loadTasks w0 = (Normal undefined, set_tasks l w0).
Proof.
  intros Hwf H0.
  rewrite (loadTasks_stored w0 _ H0) by (cbn [JSON_stringify]; discriminate).
  unfold JSON_parse_or_throw. rewrite JSON_parse_snapshot.
  cbn [map_revive]. rewrite revive_all_tasks by exact Hwf. reflexivity.
Qed.

Lemma constructor_reads_snapshot (w0 : World) (l : list Task) :
  forallb well_formed l = true ->
  localStorage w0
  = Some (JSON_stringify (VArray (List.map task_record l))) ->
  tasks (after TodoApp_constructor w0) = l.
Proof.
  intros Hwf H0.
  unfold after, TodoApp_constructor, init, bind, modify. cbn [fst snd].
  rewrite (loadTasks_reads_snapshot _ l Hwf) by exact H0. reflexivity.
Qed.

(** C3: what [saveTasks] writes for a collection of well-formed tasks,
    [loadTasks] reads back as the same collection: the same tasks, with
    their ids, texts, flags and dates, in the same order.  It does so in
    any page that holds the stored text, and so does the constructor of
    [TodoApp], which starts from the empty collection. *)
Theorem save_load_round_trip (w w' : World) :
  forallb well_formed (tasks w) = true ->
  localStorage w' = localStorage (after saveTasks w) ->
  tasks (after loadTasks w') = tasks w
  /\ console (after loadTasks w') = console w'
  /\ result loadTasks w' = Normal undefined
  /\ tasks (after TodoApp_constructor w') = tasks w.
Proof.
  intros Hwf Hs. rewrite saveTasks_storage in Hs.
  unfold after at 1 2, result.
  rewrite (loadTasks_reads_snapshot w' _ Hwf Hs).
  repeat split. apply constructor_reads_snapshot; assumption.
Qed.

Lemma save_load_round_trip_witness :
  tasks (after loadTasks
           (fresh_page (localStorage (after saveTasks two_tasks))))
  = tasks two_tasks.
Proof.
  assert (H1 : forallb well_formed (tasks two_tasks) = true)
    by (vm_compute; reflexivity).
  assert (H2 : localStorage
                 (fresh_page (localStorage (after saveTasks two_tasks)))
               = localStorage (after saveTasks two_tasks)) by reflexivity.
  destruct (save_load_round_trip two_tasks
              (fresh_page (localStorage (after saveTasks two_tasks)))
              H1 H2) as [H _].
  exact H.
Defined.

(** The same round trip, computed. *)
Example save_load_computed :
  localStorage (after saveTasks two_tasks)
  = Some (js' "[{'id':1700000000000,'text':'Buy milk','completed':false,'createdAt':'2023-11-14T22:13:20.001Z'},{'id':1700000000500,'text':'Call','completed':true,'createdAt':'2023-11-14T22:13:20.500Z'}]")
  /\ tasks (after loadTasks
              (fresh_page (localStorage (after saveTasks two_tasks))))
     = [mkTask 1700000000000 (js "Buy milk") false (DateAt 1700000000001);
        mkTask 1700000000500 (js "Call") true (DateAt 1700000000500)].
Proof. split; vm_compute; reflexivity. Qed.

(** Outside the well-formed collections the law fails, as one expects:
    an invalid date is written as [null] and read back as the epoch. *)
Example invalid_date_is_not_kept :
  tasks (after loadTasks
           (fresh_page
              (localStorage
                 (after saveTasks
                    (set_tasks [mkTask 1 (js "A") false InvalidDate]
                       (fresh_page None))))))
  = [mkTask 1 (js "A") false (DateAt 0)].
Proof. vm_compute. reflexivity. Qed.




(** A stored value that is JSON and not an array, or an array with a
    [null] entry, ends in the same fallback, through a [TypeError]. *)
Lemma loadTasks_not_a_snapshot (w : World) stored data :
  localStorage w = Some stored -> stored <> [] ->
  JSON_parse stored = Some data ->
  map_revive data = Throw TypeError ->
  after loadTasks w
  = set_tasks [] (set_console (console w ++ [(msg_load_error, TypeError)]) w)
  /\ result loadTasks w = Normal undefined.
Proof.
  intros Hs Hne Hparse Hmap. unfold after, result.
  rewrite (loadTasks_stored w _ Hs Hne).
  unfold JSON_parse_or_throw. rewrite Hparse, Hmap. split; reflexivity.
Qed.

Example loadTasks_object_and_null_entry :
  tasks (after loadTasks
           (set_tasks [mkTask 1 (js "A") false (DateAt 1)]
              (fresh_page (Some (js "{}"))))) = []
  /\ tasks (after loadTasks
              (set_tasks [mkTask 1 (js "A") false (DateAt 1)]
                 (fresh_page (Some (js "[null]"))))) = [].
Proof. split; vm_compute; reflexivity. Qed.

(** ** From one session to the next

    The hypotheses of the round trip hold in every state that the store
    operations reach: the tasks are well formed as long as the clock
    gives times that a [Date] holds, and the storage follows the
    collection.  So a page that is opened again shows the collection
    that the last one left. *)

Lemma valid_time_safe t :
  valid_time t = true ->
  (- maxSafeInteger <=? t) && (t <=? maxSafeInteger) = true.
Proof.
  unfold valid_time, maxTime, maxSafeInteger. intros H.
  apply andb_prop in H. destruct H as [H1 H2]. apply Z.leb_le in H1, H2.
  apply andb_true_intro. split; apply Z.leb_le; lia.
Qed.

Lemma forallb_filter (p q : Task -> bool) l :
  forallb p l = true -> forallb p (List.filter q l) = true.
Proof.
  rewrite !forallb_forall. intros H t Ht.
  apply List.filter_In in Ht. apply H. tauto.
Qed.

Lemma forallb_assign_found (p q : Task -> bool) f l :
  (forall t, p t = true -> p (f t) = true) ->
  forallb p l = true -> forallb p (assign_found q f l) = true.
Proof.
  intros Hf. induction l as [|x l IH]; [reflexivity|].
  cbn [forallb assign_found]. intros H.
  apply andb_prop in H. destruct H as [Hx Hl].
  destruct (q x); cbn [forallb]; apply andb_true_intro; auto.
Qed.

Lemma step_well_formed w o :
  clock_in_range o = true ->
  forallb well_formed (tasks w) = true ->
  forallb well_formed (tasks (step w o)) = true.
Proof.
  intros Hclock Hwf.
  destruct o as [raw now created|i|i|i raw| |]; cbn [clock_in_range] in Hclock;
    unfold step, after.
  - unfold addTask, bind, get. cbn [taskInput set_taskInput].
    destruct (trim raw) as [|c r]; [exact Hwf|]. cbn [is_empty].
    destruct (100 <? List.length (c :: r))%nat; [exact Hwf|].
    cbn -[JSON_stringify]. rewrite forallb_app, Hwf.
    apply andb_prop in Hclock. destruct Hclock as [Hnow Hcreated].
    unfold well_formed. cbn [forallb id createdAt andb].
    rewrite (valid_time_safe _ Hnow), Hcreated. reflexivity.
  - cbn -[JSON_stringify]. apply forallb_filter, Hwf.
  - unfold toggleTask, bind, get.
    destruct (List.find _ (tasks w)); [|exact Hwf].
    cbn -[JSON_stringify]. apply forallb_assign_found; [|exact Hwf].
    intros u Hu. exact Hu.
  - unfold saveEdit, bind, get.
    destruct (trim raw); [exact Hwf|]. cbn [is_empty].
    destruct (List.find _ (tasks w)); [|exact Hwf].
    cbn -[JSON_stringify]. apply forallb_assign_found; [|exact Hwf].
    intros u Hu. exact Hu.
  - cbn -[JSON_stringify]. apply forallb_filter, Hwf.
  - reflexivity.
Qed.

(** Every operation that changes the collection saves it. *)
Lemma step_in_sync w o : in_sync w -> in_sync (step w o).
Proof.
  intros Hs.
  destruct o as [raw now created|i|i|i raw| |]; unfold step, after.
  - unfold addTask, bind, get. cbn [taskInput set_taskInput].
    destruct (trim raw) as [|c r]; [exact Hs|]. cbn [is_empty].
    destruct (100 <? List.length (c :: r))%nat; [exact Hs|].
    left. reflexivity.
  - left. reflexivity.
  - unfold toggleTask, bind, get.
    destruct (List.find _ (tasks w)); [|exact Hs].
    left. reflexivity.
  - unfold saveEdit, bind, get.
    destruct (trim raw); [exact Hs|]. cbn [is_empty].
    destruct (List.find _ (tasks w)); [|exact Hs].
    left. reflexivity.
  - left. reflexivity.
  - left. reflexivity.
Qed.

Lemma run_reaches ops : forall w,
  forallb clock_in_range ops = true ->
  forallb well_formed (tasks w) = true -> in_sync w ->
  forallb well_formed (tasks (run ops w)) = true /\ in_sync (run ops w).
Proof.
  unfold run. induction ops as [|o ops IH]; intros w Hc Hwf Hs; [auto|].
  cbn [forallb] in Hc. apply andb_prop in Hc. destruct Hc as [Ho Hops].
  cbn [List.fold_left]. apply IH; [exact Hops | |].
  - apply step_well_formed; assumption.
  - apply step_in_sync, Hs.
Qed.

(** X15: from one session to the next.  After any sequence of store
    operations from the empty page, with the clock of each addition in
    the range of [Date], a new [TodoApp] on the storage that the session
    leaves has the collection of that session: the same tasks in the
    same order, with their ids, texts, flags and dates. *)
Theorem reload_keeps_the_collection (ops : list op) :
  forallb clock_in_range ops = true ->
  tasks (after TodoApp_constructor
           (fresh_page (localStorage (run ops (fresh_page None)))))
  = tasks (run ops (fresh_page None)).
Proof.
  intros Hc.
  destruct (run_reaches ops (fresh_page None) Hc eq_refl
              (or_intror (conj eq_refl eq_refl))) as [Hwf [Hs|[Hs Ht]]].
  - apply constructor_reads_snapshot; [exact Hwf|]. exact Hs.
  - rewrite Hs, Ht. reflexivity.
Qed.

Lemma reload_keeps_the_collection_witness :
  tasks (after TodoApp_constructor (fresh_page (localStorage two_tasks)))
  = tasks two_tasks.
Proof.
  assert (H : forallb clock_in_range
                [Add (js "Buy milk") 1700000000000 1700000000001;
                 Add (js "Call") 1700000000500 1700000000500;
                 Toggle 1700000000500] = true) by reflexivity.
  exact (reload_keeps_the_collection _ H).
Defined.

Lemma ids_distinct_while_clock_increases_witness : NoDup (ids two_tasks).
Proof.
  assert (H : clock_increases 0
                [Add (js "Buy milk") 1700000000000 1700000000001;
                 Add (js "Call") 1700000000500 1700000000500;
                 Toggle 1700000000500]) by (cbn; lia).
  exact (ids_distinct_while_clock_increases _ 0 (fresh_page None) H
           (NoDup_nil Z) (Forall_nil _)).
Defined.

(** ** The scenarios of the specification *)

Example scenario_buy_milk :
  let w := run [Add (js "Buy milk") 1700000000000 1700000000000]
             (fresh_page None) in
  List.map (fun t => (text t, completed t)) (tasks w)
  = [(js "Buy milk", false)]
  /\ updateStats w = (1, 1, 0)
  /\ (totalCount (screen w), activeCount (screen w),
      completedCount (screen w)) = (1, 1, 0).
Proof. repeat split. Qed.

Example scenario_clear_all :
  let w := run [Add (js "X") 1 1; ClearAll] (fresh_page None) in
  tasks w = [] /\ updateStats w = (0, 0, 0)
  /\ emptyState (screen w) = true
  /\ localStorage w = Some (js "[]").
Proof. repeat split. Qed.

Example scenario_delete_twice :
  let w := run [Add (js "X") 1 1; Add (js "Y") 2 2] (fresh_page None) in
  List.map text (tasks (run [Delete 1] w)) = [js "Y"]
  /\ run [Delete 1; Delete 1] w = run [Delete 1] w.
Proof. repeat split. Qed.

Example trim_examples :
  trim (js "") = [] /\ trim (js "   ") = []
  /\ trim (js "  Buy milk ") = js "Buy milk"
  /\ trim [160%N; 9%N; 65%N; 32%N; 66%N; 10%N; 65279%N] = js "A B".
Proof. repeat split. Qed.

(* ================================================================== *)
(** * Part IV: more of the store *)
(* ================================================================== *)

(** ** Deleting and clearing *)

Lemma filter_id_length (i : Z) l :
  NoDup (List.map id l) -> In i (List.map id l) ->
  S (List.length (List.filter (fun task => negb (id task =? i)) l))
  = List.length l.
Proof.
  induction l as [|x l IH]; intros Hnd Hin; [destruct Hin|].
  cbn [List.map] in Hnd. inversion Hnd as [|? ? Hx Hl]; subst.
  cbn [List.filter List.length]. destruct (Z.eqb_spec (id x) i) as [E|E].
  - cbn [negb]. f_equal. f_equal. apply filter_absent.
    intros t Ht Hi. apply Hx. rewrite E, <- Hi. apply in_map, Ht.
  - cbn [negb List.length]. f_equal. apply IH; [exact Hl|].
    destruct Hin as [Hin|Hin]; [contradiction | exact Hin].
Qed.

(** X1: a confirmed [deleteTask] of an id of a collection with distinct
    ids removes one task; the id is gone, the other tasks stay in their
    order, and the collection is saved.  A declined one changes
    nothing. *)
Theorem deleteTask_removes (i : Z) (w : World) :
  NoDup (ids w) -> In i (ids w) ->
  S (List.length (tasks (after (deleteTask true i) w)))
  = List.length (tasks w)
  /\ ~ In i (ids (after (deleteTask true i) w))
  /\ selection (fun t => negb (id t =? i)) (tasks w)
       (tasks (after (deleteTask true i) w))
  /\ localStorage (after (deleteTask true i) w)
     = Some (JSON_stringify
               (VArray (List.map task_record
                          (tasks (after (deleteTask true i) w)))))
  /\ after (deleteTask false i) w = w.
Proof.
  intros Hnd Hin.
  change (tasks (after (deleteTask true i) w))
    with (List.filter (fun task => negb (id task =? i)) (tasks w)).
  split; [apply filter_id_length; assumption|].
  split.
  - unfold ids.
    change (tasks (after (deleteTask true i) w))
      with (List.filter (fun task => negb (id task =? i)) (tasks w)).
    intros H. apply in_map_iff in H. destruct H as (t & Hi & Ht).
    apply List.filter_In in Ht. destruct Ht as [_ Ht].
    apply negb_true_iff, Z.eqb_neq in Ht. contradiction.
  - split; [apply selection_filter|]. split; reflexivity.
Qed.

Lemma deleteTask_removes_witness :
  S (List.length (tasks (after (deleteTask true 1700000000000) two_tasks)))
  = List.length (tasks two_tasks).
Proof.
  assert (H1 : NoDup (ids two_tasks)).
  { vm_compute. repeat constructor; cbn; intuition discriminate. }
  assert (H2 : In 1700000000000 (ids two_tasks))
    by (vm_compute; left; reflexivity).
  destruct (deleteTask_removes 1700000000000 two_tasks H1 H2) as [H _].
  exact H.
Defined.

Lemma filter_filter_negb (p : Task -> bool) l :
  List.filter p (List.filter (fun t => negb (p t)) l) = [].
Proof.
  induction l as [|x l IH]; [reflexivity|].
  cbn [List.filter]. destruct (p x) eqn:E; cbn [negb List.filter];
    [|rewrite E]; exact IH.
Qed.

Lemma filter_idempotent (p : Task -> bool) l :
  List.filter p (List.filter p l) = List.filter p l.
Proof.
  induction l as [|x l IH]; [reflexivity|].
  cbn [List.filter]. destruct (p x) eqn:E; [|exact IH].
  cbn [List.filter]. rewrite E, IH. reflexivity.
Qed.

(** X2: a confirmed [clearCompleted] leaves the tasks that the filter
    [active] shows, in their order: no completed task is left, the
    counter of the completed ones shows 0, and a second call removes
    nothing more.  A declined one changes nothing. *)
Theorem clearCompleted_keeps_active (w : World) :
  tasks (after (clearCompleted true) w)
  = getFilteredTasks (after (setFilter (js "active")) w)
  /\ (forall t, In t (tasks (after (clearCompleted true) w)) ->
        In t (tasks w) /\ completed t = false)
  /\ completedCount (screen (after (clearCompleted true) w)) = 0
  /\ totalCount (screen (after (clearCompleted true) w))
     = activeCount (screen (after (clearCompleted true) w))
  /\ tasks (after (clearCompleted true) (after (clearCompleted true) w))
     = tasks (after (clearCompleted true) w)
  /\ after (clearCompleted false) w = w.
Proof.
  split; [reflexivity|]. split.
  - intros t Ht.
    change (tasks (after (clearCompleted true) w))
      with (List.filter (fun task => negb (completed task)) (tasks w)) in Ht.
    apply List.filter_In in Ht. destruct Ht as [Hin Hc].
    apply negb_true_iff in Hc. auto.
  - assert (H0 : completedCount (screen (after (clearCompleted true) w)) = 0).
    { unfold after, clearCompleted, bind, render, get, modify, updateStats.
      cbn -[JSON_stringify].
      rewrite (filter_filter_negb (fun t => completed t)). reflexivity. }
    split; [exact H0|]. split.
    + unfold after, clearCompleted, bind, render, get, modify, updateStats.
      cbn -[JSON_stringify Z.sub].
      rewrite (filter_filter_negb (fun t => completed t)). cbn. lia.
    + split; [|reflexivity].
      change (List.filter (fun task => negb (completed task))
                (List.filter (fun task => negb (completed task)) (tasks w))
              = List.filter (fun task => negb (completed task)) (tasks w)).
      apply (filter_idempotent (fun task => negb (completed task))).
Qed.

(** ** What the screen shows *)

Lemma filter_partition_length (p : Task -> bool) l :
  (List.length (List.filter p l)
   + List.length (List.filter (fun t => negb (p t)) l)
   = List.length l)%nat.
Proof.
  induction l as [|x l IH]; [reflexivity|].
  cbn [List.filter]. destruct (p x); cbn [negb List.length]; lia.
Qed.

(** X3: what [render] and [updateStats] put on the screen.  The list is
    the view of [getFilteredTasks] and the empty state is shown exactly
    when that view is empty; the three counters are the sizes of the
    collection, of its active view and of its completed view, whatever
    the current filter is, and the first is the sum of the other two;
    the collection, the filter and the storage are not touched. *)
Theorem render_shows_the_state (w : World) :
  listed (screen (after render w)) = getFilteredTasks w
  /\ (emptyState (screen (after render w)) = true
      <-> getFilteredTasks w = [])
  /\ totalCount (screen (after render w))
     = Z.of_nat (List.length (tasks w))
  /\ activeCount (screen (after render w))
     = Z.of_nat (List.length
                   (getFilteredTasks (after (setFilter (js "active")) w)))
  /\ completedCount (screen (after render w))
     = Z.of_nat (List.length
                   (getFilteredTasks (after (setFilter (js "completed")) w)))
  /\ totalCount (screen (after render w))
     = activeCount (screen (after render w))
       + completedCount (screen (after render w))
  /\ tasks (after render w) = tasks w
  /\ currentFilter (after render w) = currentFilter w
  /\ localStorage (after render w) = localStorage w.
Proof.
  pose proof (filter_partition_length (fun t => completed t) (tasks w)) as Hp.
  unfold after, render, bind, get, modify, updateStats.
  cbn -[Z.sub Z.of_nat].
  repeat split; try lia.
  - intros H. apply Nat.eqb_eq in H.
    destruct (getFilteredTasks w); [reflexivity | discriminate].
  - intros ->. reflexivity.
Qed.

(** ** Adding twice, toggling and the counters *)

(** X4: a successful [addTask] empties the input, so that a second call
    before the user types again adds nothing: it reports the empty-text
    error and leaves the collection with the one new task. *)
Theorem addTask_clears_input (now created now' created' : Z) (w : World) :
  trim (taskInput w) <> [] ->
  (List.length (trim (taskInput w)) <= 100)%nat ->
  taskInput (after (addTask now created) w) = []
  /\ tasks (after (addTask now' created') (after (addTask now created) w))
     = tasks w ++ [mkTask now (trim (taskInput w)) false (DateAt created)]
  /\ alerts (after (addTask now' created') (after (addTask now created) w))
     = alerts w ++ [msg_empty].
Proof.
  intros Hne Hlen.
  assert (H1 : after (addTask now created) w
               = after render
                   (after saveTasks
                      (set_taskInput []
                         (set_tasks
                            (tasks w ++ [mkTask now (trim (taskInput w)) false
                                           (DateAt created)]) w)))).
  { unfold after at 1. unfold addTask, bind, get.
    destruct (trim (taskInput w)) as [|c r]; [congruence|]. cbn [is_empty].
    destruct (Nat.ltb_spec 100 (List.length (c :: r))) as [H|H]; [lia|].
    reflexivity. }
  rewrite H1. repeat split.
Qed.

Lemma addTask_clears_input_witness :
  tasks (after (addTask 3 3)
           (after (addTask 2 2) (set_taskInput (js "Tea") two_tasks)))
  = tasks (set_taskInput (js "Tea") two_tasks)
    ++ [mkTask 2 (trim (taskInput (set_taskInput (js "Tea") two_tasks)))
          false (DateAt 2)].
Proof.
  assert (H1 : trim (taskInput (set_taskInput (js "Tea") two_tasks)) <> [])
    by (vm_compute; discriminate).
  assert (H2 : (List.length
                  (trim (taskInput (set_taskInput (js "Tea") two_tasks)))
                <= 100)%nat) by (vm_compute; lia).
  destruct (addTask_clears_input 2 2 3 3
              (set_taskInput (js "Tea") two_tasks) H1 H2) as (_ & H & _).
  exact H.
Defined.

(** X5: [toggleTask] of a task of the collection moves one unit between
    the two counters, as against what the screen shows of the collection
    before: the total stays, the completed counter goes up by one and
    the active one down when the task was active, and the other way
    round when it was completed. *)
Theorem toggleTask_moves_a_counter (i : Z) (w : World) (t : Task) :
  List.find (fun t => id t =? i) (tasks w) = Some t ->
  totalCount (screen (after (toggleTask i) w))
  = Z.of_nat (List.length (tasks w))
  /\ completedCount (screen (after (toggleTask i) w))
     = completedCount (screen (after render w))
       + (if completed t then -1 else 1)
  /\ activeCount (screen (after (toggleTask i) w))
     = activeCount (screen (after render w))
       - (if completed t then -1 else 1).
Proof.
  intros F.
  destruct (find_split _ _ _ F) as (l1 & l2 & El & _ & _ & Hassign).
  unfold after, toggleTask, bind, get. rewrite F.
  unfold render, bind, get, modify, updateStats.
  cbn -[JSON_stringify Z.sub Z.add Z.of_nat].
  rewrite Hassign, El.
  rewrite !List.filter_app, !length_app. cbn [List.filter List.length].
  unfold set_completed. cbn [completed].
  destruct (completed t); cbn [negb List.length]; repeat split; lia.
Qed.

Lemma toggleTask_moves_a_counter_witness :
  completedCount (screen (after (toggleTask 1700000000000) two_tasks))
  = completedCount (screen (after render two_tasks))
    + (if completed buy_milk then -1 else 1).
Proof.
  assert (F : List.find (fun t => id t =? 1700000000000) (tasks two_tasks)
              = Some buy_milk) by (vm_compute; reflexivity).
  destruct (toggleTask_moves_a_counter 1700000000000 two_tasks buy_milk F)
    as (_ & H & _).
  exact H.
Defined.

(** ** White space *)

Lemma trimStart_head s :
  trimStart s = [] \/ is_white_space (List.hd 0%N (trimStart s)) = false.
Proof.
  induction s as [|c r IH]; [left; reflexivity|].
  cbn [trimStart]. destruct (is_white_space c) eqn:E; [exact IH|].
  right. exact E.
Qed.


Lemma trimStart_snoc a c :
  is_white_space c = false -> trimStart (a ++ [c]) = trimStart a ++ [c].
Proof.
  intros Hc. induction a as [|x a IH]; cbn [List.app trimStart].
  - rewrite Hc. reflexivity.
  - destruct (is_white_space x); [exact IH | reflexivity].
Qed.

Lemma trimEnd_cons c y :
  is_white_space c = false -> trimEnd (c :: y) = c :: trimEnd y.
Proof.
  intros Hc. unfold trimEnd. cbn [List.rev].
  rewrite trimStart_snoc by exact Hc.
  rewrite List.rev_app_distr. reflexivity.
Qed.

Lemma trimEnd_last y :
  trimEnd y = [] \/ is_white_space (List.last (trimEnd y) 0%N) = false.
Proof.
  unfold trimEnd.
  destruct (trimStart_head (List.rev y)) as [E|E].
  - left. rewrite E. reflexivity.
  - right. destruct (trimStart (List.rev y)) as [|d z]; [exact E|].
    cbn [List.rev List.hd] in *. rewrite List.last_last. exact E.
Qed.

(** What [trim] returns has no white space at either end. *)
Lemma trim_ends s :
  trim s <> [] ->
  is_white_space (List.hd 0%N (trim s)) = false
  /\ is_white_space (List.last (trim s) 0%N) = false.
Proof.
  unfold trim. intros Hne.
  destruct (trimEnd_last (trimStart s)) as [E|E]; [contradiction|].
  split; [|exact E].
  destruct (trimStart_head s) as [E0|E0].
  - rewrite E0 in Hne. elim Hne. reflexivity.
  - destruct (trimStart s) as [|c y]; [elim Hne; reflexivity|].
    cbn [List.hd] in E0. rewrite trimEnd_cons by exact E0. exact E0.
Qed.


(** ** The texts of the collection *)

Lemma Forall_filter_tasks (P : Task -> Prop) (q : Task -> bool) l :
  Forall P l -> Forall P (List.filter q l).
Proof.
  rewrite !Forall_forall. intros H t Ht.
  apply List.filter_In in Ht. apply H. tauto.
Qed.

Lemma Forall_assign_found (P : Task -> Prop) (q : Task -> bool) f l :
  (forall t, P t -> P (f t)) ->
  Forall P l -> Forall P (assign_found q f l).
Proof.
  intros Hf. induction 1 as [|x l Hx Hl IH]; [constructor|].
  cbn [assign_found]. destruct (q x); constructor; auto.
Qed.

Lemma addTask_texts now created w :
  Forall text_ok (tasks w) ->
  Forall text_ok (tasks (after (addTask now created) w)).
Proof.
  intros H. unfold after, addTask, bind, get.
  destruct (trim (taskInput w)) as [|c r] eqn:E; [exact H|]. cbn [is_empty].
  destruct (100 <? List.length (c :: r))%nat; [exact H|].
  cbn -[JSON_stringify]. apply Forall_app. split; [exact H|].
  constructor; [|constructor].
  assert (Hne : trim (taskInput w) <> []) by (rewrite E; discriminate).
  destruct (trim_ends _ Hne) as [H1 H2]. rewrite E in H1, H2.
  split; [discriminate|]. split; assumption.
Qed.

Lemma saveEdit_texts i newText w :
  Forall text_ok (tasks w) ->
  Forall text_ok (tasks (after (saveEdit i newText) w)).
Proof.
  intros H. unfold after, saveEdit, bind, get.
  destruct (trim newText) as [|c r] eqn:E; [exact H|]. cbn [is_empty].
  destruct (List.find _ (tasks w)); [|exact H].
  cbn -[JSON_stringify]. apply Forall_assign_found; [|exact H].
  intros u _.
  assert (Hne : trim newText <> []) by (rewrite E; discriminate).
  destruct (trim_ends _ Hne) as [H1 H2]. rewrite E in H1, H2.
  split; [discriminate|]. split; assumption.
Qed.

Lemma toggleTask_texts i w :
  Forall text_ok (tasks w) ->
  Forall text_ok (tasks (after (toggleTask i) w)).
Proof.
  intros H. unfold after, toggleTask, bind, get.
  destruct (List.find _ (tasks w)); [|exact H].
  cbn -[JSON_stringify]. apply Forall_assign_found; [|exact H].
  intros u Hu. exact Hu.
Qed.

Lemma dispatch_texts p e :
  Forall text_ok (tasks (world p)) ->
  Forall text_ok (tasks (world (dispatch p e))).
Proof.
  intros H.
  destruct e as [s|now created|key now created|filter|c|c|i|i|i c|s| | |key|b];
    unfold dispatch, modal_save, modal_close, on_world; cbn [world].
  - exact H.
  - apply addTask_texts, H.
  - destruct (jsstring_eqb key (js "Enter")); [|exact H].
    apply addTask_texts, H.
  - exact H.
  - destruct c; [|exact H]. apply (Forall_filter_tasks _ _ _ H).
  - destruct c; [constructor | exact H].
  - apply toggleTask_texts, H.
  - unfold after, editTask, bind, get.
    destruct (List.find _ (tasks (world p))); exact H.
  - destruct c; [|exact H]. apply (Forall_filter_tasks _ _ _ H).
  - exact H.
  - destruct (editTarget p); [|exact H]. apply saveEdit_texts, H.
  - destruct (editTarget p); exact H.
  - destruct (jsstring_eqb key (js "Enter")); [|exact H].
    destruct (editTarget p); [|exact H]. apply saveEdit_texts, H.
  - destruct b; [|exact H]. destruct (editTarget p); exact H.
Qed.

(** X6: whatever the user does, the texts of the collection stay as
    [addTask] and [saveEdit] make them: not empty, and with no white
    space at their ends. *)
Theorem texts_stay_trimmed (events : list event) (p : Page) :
  Forall text_ok (tasks (world p)) ->
  Forall text_ok (tasks (world (play events p))).
Proof.
  unfold play. revert p.
  induction events as [|e events IH]; intros p H; [exact H|].
  cbn [List.fold_left]. apply IH, dispatch_texts, H.
Qed.

Lemma texts_stay_trimmed_witness :
  Forall text_ok
    (tasks (world (play [TypeTask (js "  Buy milk "); ClickAdd 5 5;
                         ClickEdit 5; TypeEdit (js " Buy tea  "); ClickSave]
                     (open_page None)))).
Proof.
  apply (texts_stay_trimmed
           [TypeTask (js "  Buy milk "); ClickAdd 5 5;
            ClickEdit 5; TypeEdit (js " Buy tea  "); ClickSave]
           (open_page None)).
  vm_compute. constructor.
Defined.

(** ** The editor *)




(** ** Invariants of the page *)

Lemma up_to_date_render w : up_to_date (after render w).
Proof. reflexivity. Qed.

Lemma render_screen w :
  screen (after render w)
  = mkScreen (getFilteredTasks w)
      (Nat.eqb (List.length (getFilteredTasks w)) 0)
      (Z.of_nat (List.length (tasks w)))
      (Z.of_nat (List.length (tasks w))
       - Z.of_nat (List.length
                     (List.filter (fun t => completed t) (tasks w))))
      (Z.of_nat (List.length (List.filter (fun t => completed t) (tasks w)))).
Proof. reflexivity. Qed.

Lemma up_to_date_screen w :
  up_to_date w <-> screen w = screen (after render w).
Proof.
  unfold up_to_date. split.
  - intros H. rewrite H. reflexivity.
  - intros H. change (after render w) with (set_screen (screen (after render w)) w).
    rewrite <- H. destruct w; reflexivity.
Qed.

(** A step that leaves the collection, the filter and the screen as
    they were leaves the screen up to date. *)
Lemma up_to_date_frame w w' :
  up_to_date w ->
  tasks w' = tasks w -> currentFilter w' = currentFilter w ->
  screen w' = screen w ->
  up_to_date w'.
Proof.
  rewrite !up_to_date_screen, !render_screen. unfold getFilteredTasks.
  intros H -> -> ->. exact H.
Qed.


Lemma dispatch_up_to_date p e :
  up_to_date (world p) -> up_to_date (world (dispatch p e)).
Proof.
  intros H.
  destruct e as [s|now created|key now created|filter|c|c|i|i|i c|s| | |key|b];
    unfold dispatch, modal_save, modal_close, on_world; cbn [world].
  - apply (up_to_date_frame _ _ H); reflexivity.
  - unfold after, addTask, bind, get.
    destruct (trim (taskInput (world p))) as [|x r];
      [apply (up_to_date_frame _ _ H); reflexivity|]. cbn [is_empty].
    destruct (100 <? List.length (x :: r))%nat;
      [apply (up_to_date_frame _ _ H); reflexivity | reflexivity].
  - destruct (jsstring_eqb key (js "Enter")); [|exact H].
    unfold after, addTask, bind, get.
    destruct (trim (taskInput (world p))) as [|x r];
      [apply (up_to_date_frame _ _ H); reflexivity|]. cbn [is_empty].
    destruct (100 <? List.length (x :: r))%nat;
      [apply (up_to_date_frame _ _ H); reflexivity | reflexivity].
  - reflexivity.
  - destruct c; [reflexivity | exact H].
  - destruct c; [reflexivity | exact H].
  - unfold after, toggleTask, bind, get.
    destruct (List.find _ (tasks (world p))); [reflexivity | exact H].
  - unfold after, editTask, bind, get.
    destruct (List.find _ (tasks (world p))); [|exact H].
    apply (up_to_date_frame _ _ H); reflexivity.
  - destruct c; [reflexivity | exact H].
  - apply (up_to_date_frame _ _ H); reflexivity.
  - destruct (editTarget p); [|exact H].
    unfold after, saveEdit, bind, get.
    destruct (trim (editInput (world p)));
      [apply (up_to_date_frame _ _ H); reflexivity|]. cbn [is_empty].
    destruct (List.find _ (tasks (world p))); [reflexivity | exact H].
  - destruct (editTarget p); [|exact H].
    apply (up_to_date_frame _ _ H); reflexivity.
  - destruct (jsstring_eqb key (js "Enter")); [|exact H].
    destruct (editTarget p); [|exact H].
    unfold after, saveEdit, bind, get.
    destruct (trim (editInput (world p)));
      [apply (up_to_date_frame _ _ H); reflexivity|]. cbn [is_empty].
    destruct (List.find _ (tasks (world p))); [reflexivity | exact H].
  - destruct b; [|exact H]. destruct (editTarget p); [|exact H].
    apply (up_to_date_frame _ _ H); reflexivity.
Qed.

(** X8: the screen is never stale.  Once the constructor has run to its
    end, after any sequence of events the list on the screen is the view
    of the collection under the current filter, the empty state is shown
    exactly when that view is empty, and the counters are those of the
    collection. *)
Theorem screen_never_stale (stored : option jsstring) (events : list event) :
  result TodoApp_constructor (fresh_page stored) = Normal undefined ->
  up_to_date (world (play events (open_page stored)))
  /\ listed (screen (world (play events (open_page stored))))
     = getFilteredTasks (world (play events (open_page stored)))
  /\ totalCount (screen (world (play events (open_page stored))))
     = Z.of_nat (List.length (tasks (world (play events (open_page stored))))).
Proof.
  intros Hc.
  assert (H0 : up_to_date (world (open_page stored))).
  { unfold open_page. cbn [world].
    unfold result, TodoApp_constructor, init, bind, modify in Hc.
    unfold after, TodoApp_constructor, init, bind, modify.
    cbn [fst snd] in *.
    destruct (loadTasks _) as [[v|e|] w']; cbn [fst snd] in *;
      try discriminate.
    reflexivity. }
  assert (H : up_to_date (world (play events (open_page stored)))).
  { unfold play. generalize dependent (open_page stored). clear Hc.
    induction events as [|e events IH]; intros p Hp; [exact Hp|].
    cbn [List.fold_left]. apply IH, dispatch_up_to_date, Hp. }
  split; [exact H|].
  unfold up_to_date in H. rewrite <- H at 1 3. split; reflexivity.
Qed.

Lemma screen_never_stale_witness :
  up_to_date
    (world (play [TypeTask (js "A"); ClickAdd 1 1; ClickCheckbox 1;
                  ClickFilter (js "active")]
              (open_page (Some not_valid_json)))).
Proof.
  assert (H : result TodoApp_constructor (fresh_page (Some not_valid_json))
              = Normal undefined) by (vm_compute; reflexivity).
  destruct (screen_never_stale (Some not_valid_json)
              [TypeTask (js "A"); ClickAdd 1 1; ClickCheckbox 1;
               ClickFilter (js "active")] H) as [H0 _].
  exact H0.
Defined.






(** ** Stored values that are no snapshot *)

Lemma new_Date_throws v e : new_Date v = Throw e -> e = TypeError.
Proof.
  unfold new_Date.
  repeat match goal with
         | |- context [match ?x with _ => _ end] => destruct x
         end; intros H; try discriminate; inversion H; reflexivity.
Qed.

Lemma revive_throws t e : revive t = Throw e -> e = TypeError.
Proof.
  unfold revive. destruct t as [|b|m e0|s|items|members];
    try (intros H; inversion H; reflexivity);
    (destruct (new_Date _) as [d|e1|] eqn:D;
     [ repeat match goal with
              | |- context [match ?x with _ => _ end] => destruct x
              end; discriminate
     | intros H; inversion H; subst; apply (new_Date_throws _ _ D)
     | discriminate ]).
Qed.

Lemma revive_all_null items :
  In JNull items -> revive_all items = Throw TypeError.
Proof.
  induction items as [|t items IH]; intros Hin; [destruct Hin|].
  cbn [revive_all]. destruct Hin as [-> | Hin].
  - reflexivity.
  - rewrite (IH Hin).
    destruct (revive t) as [x|e|] eqn:E; try reflexivity.
    rewrite (revive_throws _ _ E). reflexivity.
Qed.

(** X11: a stored text that is JSON and no array (an object, a number,
    a string, [null]), or an array with a [null] entry, is no snapshot:
    [loadTasks] catches the [TypeError] of [data.map], logs it and
    leaves the empty collection, whatever the collection was. *)
Theorem loadTasks_rejects_other_json (w : World) (stored : jsstring)
  (data : json) :
  localStorage w = Some stored -> stored <> [] ->
  JSON_parse stored = Some data ->
  (forall items, data = JArr items -> In JNull items) ->
  after loadTasks w
  = set_tasks [] (set_console (console w ++ [(msg_load_error, TypeError)]) w)
  /\ result loadTasks w = Normal undefined.
Proof.
  intros Hs Hne Hparse Hdata. apply (loadTasks_not_a_snapshot w stored data);
    try assumption.
  destruct data as [|b|m e|s|items|members]; try reflexivity.
  cbn [map_revive]. apply revive_all_null, Hdata. reflexivity.
Qed.

Lemma loadTasks_rejects_other_json_witness :
  tasks (after loadTasks (set_localStorage (Some (js "[null]")) two_tasks))
  = []
  /\ tasks (after loadTasks
              (set_localStorage (Some (js' "{'tasks':[]}")) two_tasks))
     = [].
Proof.
  split.
  - assert (H1 : js "[null]" <> []) by (vm_compute; discriminate).
    assert (H2 : JSON_parse (js "[null]") = Some (JArr [JNull]))
      by (vm_compute; reflexivity).
    assert (H3 : forall items, JArr [JNull] = JArr items -> In JNull items).
    { intros items E. inversion E. left. reflexivity. }
    destruct (loadTasks_rejects_other_json
                (set_localStorage (Some (js "[null]")) two_tasks)
                (js "[null]") (JArr [JNull]) eq_refl H1 H2 H3) as [H _].
    rewrite H. reflexivity.
  - assert (H1 : js' "{'tasks':[]}" <> []) by (vm_compute; discriminate).
    assert (H2 : JSON_parse (js' "{'tasks':[]}")
                 = Some (JObj [(js "tasks", JArr [])]))
      by (vm_compute; reflexivity).
    assert (H3 : forall items,
              JObj [(js "tasks", JArr [])] = JArr items -> In JNull items)
      by (intros items E; discriminate).
    destruct (loadTasks_rejects_other_json
                (set_localStorage (Some (js' "{'tasks':[]}")) two_tasks)
                (js' "{'tasks':[]}") (JObj [(js "tasks", JArr [])])
                eq_refl H1 H2 H3) as [H _].
    rewrite H. reflexivity.
Defined.

(** ** Dates that are not valid *)

Lemma revive_json_of_storable t :
  storable t = true -> revive (json_of_task t) = Normal (reloaded t).
Proof.
  unfold storable. intros H.
  destruct t as [i s b d]. cbn [id createdAt] in *.
  apply andb_prop in H. destruct H as [Hid Hd].
  destruct d as [|ms].
  - apply andb_prop in Hid. destruct Hid as [Hlo Hhi].
    apply Z.leb_le in Hlo, Hhi.
    unfold revive, json_of_task, reloaded.
    cbn [id text completed createdAt].
    change (property _ (js "createdAt")) with (Some JNull).
    change (property _ (js "id")) with (Some (JNum i 0)).
    change (property _ (js "text")) with (Some (JStr s)).
    change (property _ (js "completed")) with (Some (JBool b)).
    cbn [new_Date].
    assert (Hsafe : safe_integer i 0 = Some i).
    { unfold safe_integer. change (0 <=? 0) with true. cbv iota.
      change (10 ^ 0) with 1. rewrite Z.mul_1_r.
      replace ((- maxSafeInteger <=? i) && (i <=? maxSafeInteger)) with true;
        [reflexivity|].
      symmetry. apply andb_true_intro. split; apply Z.leb_le; lia. }
    rewrite Hsafe. reflexivity.
  - change (reloaded (mkTask i s b (DateAt ms)))
      with (mkTask i s b (DateAt ms)).
    apply revive_json_of_task. unfold well_formed. cbn [id createdAt].
    rewrite Hid, Hd. reflexivity.
Qed.

Lemma revive_all_storable l :
  forallb storable l = true ->
  revive_all (List.map json_of_task l) = Normal (List.map reloaded l).
Proof.
  induction l as [|t l IH]; [reflexivity|].
  cbn [forallb]. intros H. apply andb_prop in H. destruct H as [Ht Hl].
  cbn [List.map revive_all]. rewrite revive_json_of_storable by exact Ht.
  rewrite IH by exact Hl. reflexivity.
Qed.

(** X12: the round trip with dates that are not valid.  A task whose
    date is invalid is written with [null] for it, and [loadTasks] reads
    [null] as the epoch: what comes back of a saved collection is the
    collection with 1 January 1970 in place of every invalid date, the
    rest of each task and the order being kept; saved once more, it
    comes back as it is. *)
Theorem save_load_resets_invalid_dates (w w' : World) :
  forallb storable (tasks w) = true ->
  localStorage w' = localStorage (after saveTasks w) ->
  tasks (after loadTasks w') = List.map reloaded (tasks w)
  /\ result loadTasks w' = Normal undefined
  /\ List.map reloaded (List.map reloaded (tasks w))
     = List.map reloaded (tasks w).
Proof.
  intros Hst Hs. rewrite saveTasks_storage in Hs.
  unfold after, result.
  rewrite (loadTasks_stored w' _ Hs) by (cbn [JSON_stringify]; discriminate).
  unfold JSON_parse_or_throw. rewrite JSON_parse_snapshot.
  cbn [map_revive]. rewrite revive_all_storable by exact Hst.
  split; [reflexivity|]. split; [reflexivity|].
  rewrite List.map_map. apply List.map_ext.
  intros [i s b [|ms]]; reflexivity.
Qed.

Lemma save_load_resets_invalid_dates_witness :
  tasks (after loadTasks
           (fresh_page (localStorage (after saveTasks undated))))
  = List.map reloaded (tasks undated).
Proof.
  assert (H1 : forallb storable (tasks undated) = true)
    by (vm_compute; reflexivity).
  assert (H2 : localStorage
                 (fresh_page (localStorage (after saveTasks undated)))
               = localStorage (after saveTasks undated)) by reflexivity.
  destruct (save_load_resets_invalid_dates undated
              (fresh_page (localStorage (after saveTasks undated)))
              H1 H2) as [H _].
  exact H.
Defined.

(** ** Markup *)

Lemma escape_char_cases c :
  (c = ch "&" /\ escape_char c = js "&amp;")
  \/ (c = 160%N /\ escape_char c = js "&nbsp;")
  \/ (c = ch "<" /\ escape_char c = js "&lt;")
  \/ (c = ch ">" /\ escape_char c = js "&gt;")
  \/ (is_markup c = false /\ escape_char c = [c]).
Proof.
  unfold escape_char, is_markup.
  destruct (N.eqb_spec c (ch "&")) as [E|E]; [left; split; [exact E|reflexivity]|].
  destruct (N.eqb_spec c 160) as [E1|E1];
    [right; left; split; [exact E1|reflexivity]|].
  destruct (N.eqb_spec c (ch "<")) as [E2|E2];
    [right; right; left; split; [exact E2|reflexivity]|].
  destruct (N.eqb_spec c (ch ">")) as [E3|E3];
    [right; right; right; left; split; [exact E3|reflexivity]|].
  right; right; right; right. split; reflexivity.
Qed.

Lemma escape_char_safe c x :
  In x (escape_char c) -> is_markup x = true -> x = ch "&".
Proof.
  destruct (escape_char_cases c) as [[_ ->]|[[_ ->]|[[_ ->]|[[_ ->]|[Hc ->]]]]];
    cbn; intros H Hx;
    repeat (destruct H as [<-|H]; [first [reflexivity | discriminate Hx]|]);
    try contradiction.
  destruct H as [<-|[]]. congruence.
Qed.

Lemma escapeHtml_ampersand text : forall pre post,
  escapeHtml text = pre ++ ch "&" :: post ->
  exists rest,
    post = js "amp;" ++ rest \/ post = js "nbsp;" ++ rest
    \/ post = js "lt;" ++ rest \/ post = js "gt;" ++ rest.
Proof.
  induction text as [|c r IH]; intros pre post H;
    [destruct pre; discriminate|].
  change (escapeHtml (c :: r)) with (escape_char c ++ escapeHtml r) in H.
  destruct (escape_char_cases c)
    as [[_ E]|[[_ E]|[[_ E]|[[_ E]|[Hc E]]]]]; rewrite E in H; clear E.
  - change (js "&amp;") with [38; 97; 109; 112; 59]%N in H.
    cbn [List.app] in H.
    destruct pre as [|x1 pre]; cbn [List.app] in H;
      [injection H as <-; exists (escapeHtml r); left; reflexivity|].
    injection H as _ H.
    do 4 (destruct pre as [|? pre]; cbn [List.app] in H;
          [discriminate H | injection H as _ H]).
    apply (IH _ _ H).
  - change (js "&nbsp;") with [38; 110; 98; 115; 112; 59]%N in H.
    cbn [List.app] in H.
    destruct pre as [|x1 pre]; cbn [List.app] in H;
      [injection H as <-; exists (escapeHtml r); right; left; reflexivity|].
    injection H as _ H.
    do 5 (destruct pre as [|? pre]; cbn [List.app] in H;
          [discriminate H | injection H as _ H]).
    apply (IH _ _ H).
  - change (js "&lt;") with [38; 108; 116; 59]%N in H.
    cbn [List.app] in H.
    destruct pre as [|x1 pre]; cbn [List.app] in H;
      [injection H as <-; exists (escapeHtml r); right; right; left;
       reflexivity|].
    injection H as _ H.
    do 3 (destruct pre as [|? pre]; cbn [List.app] in H;
          [discriminate H | injection H as _ H]).
    apply (IH _ _ H).
  - change (js "&gt;") with [38; 103; 116; 59]%N in H.
    cbn [List.app] in H.
    destruct pre as [|x1 pre]; cbn [List.app] in H;
      [injection H as <-; exists (escapeHtml r); right; right; right;
       reflexivity|].
    injection H as _ H.
    do 3 (destruct pre as [|? pre]; cbn [List.app] in H;
          [discriminate H | injection H as _ H]).
    apply (IH _ _ H).
  - cbn [List.app] in H.
    destruct pre as [|x1 pre]; cbn [List.app] in H.
    + injection H as Hx _. subst c. discriminate Hc.
    + injection H as _ H. apply (IH _ _ H).
Qed.

(** X13: [escapeHtml] leaves nothing that a parser of HTML would read as
    markup.  Its result holds no [<], no [>] and no no-break space, and
    every [&] in it begins one of the four references [&amp;] [&nbsp;]
    [&lt;] [&gt;]; a text without these four characters comes out as it
    is, and no text gets shorter. *)
Theorem escapeHtml_no_markup (text : jsstring) :
  (forall x, In x (escapeHtml text) -> is_markup x = true -> x = ch "&")
  /\ (forall pre post,
        escapeHtml text = pre ++ ch "&" :: post ->
        exists rest,
          post = js "amp;" ++ rest \/ post = js "nbsp;" ++ rest
          \/ post = js "lt;" ++ rest \/ post = js "gt;" ++ rest)
  /\ (forallb (fun c => negb (is_markup c)) text = true ->
      escapeHtml text = text)
  /\ (List.length text <= List.length (escapeHtml text))%nat.
Proof.
  split; [|split; [apply escapeHtml_ampersand|split]].
  - intros x Hx. unfold escapeHtml in Hx. apply in_flat_map in Hx.
    destruct Hx as (c & _ & Hc). apply (escape_char_safe c x Hc).
  - induction text as [|c r IH]; [reflexivity|].
    cbn [forallb]. intros H. apply andb_prop in H. destruct H as [Hc Hr].
    change (escapeHtml (c :: r)) with (escape_char c ++ escapeHtml r).
    rewrite (IH Hr). apply negb_true_iff in Hc.
    destruct (escape_char_cases c)
      as [[-> _]|[[-> _]|[[-> _]|[[-> _]|[_ ->]]]]];
      try discriminate Hc. reflexivity.
  - induction text as [|c r IH]; [reflexivity|].
    change (escapeHtml (c :: r)) with (escape_char c ++ escapeHtml r).
    rewrite length_app. cbn [List.length].
    destruct (escape_char_cases c)
      as [[_ ->]|[[_ ->]|[[_ ->]|[[_ ->]|[_ ->]]]]]; cbn; lia.
Qed.

Example escapeHtml_script :
  escapeHtml (js "<img src=x onerror=alert(1)> & co")
  = js "&lt;img src=x onerror=alert(1)&gt; &amp; co".
Proof. reflexivity. Qed.

(** ** Removals, one after the other *)

Lemma filter_swap (p q : Task -> bool) l :
  List.filter p (List.filter q l) = List.filter q (List.filter p l).
Proof.
  induction l as [|x l IH]; [reflexivity|].
  cbn [List.filter].
  destruct (q x) eqn:Q, (p x) eqn:P; cbn [List.filter];
    rewrite ?Q, ?P, IH; reflexivity.
Qed.

Lemma replaced_twice (l l' : list Task) (w : World) :
  after render (after saveTasks
    (set_tasks l (after render (after saveTasks (set_tasks l' w)))))
  = after render (after saveTasks (set_tasks l w)).
Proof. reflexivity. Qed.

Lemma replaced_tasks (l : list Task) (w : World) :
  tasks (after render (after saveTasks (set_tasks l w))) = l.
Proof. reflexivity. Qed.

Lemma deleteTask_replaces (i : Z) (w : World) :
  after (deleteTask true i) w
  = after render (after saveTasks
      (set_tasks (List.filter (fun task => negb (id task =? i)) (tasks w)) w)).
Proof. reflexivity. Qed.

Lemma clearCompleted_replaces (w : World) :
  after (clearCompleted true) w
  = after render (after saveTasks
      (set_tasks (List.filter (fun task => negb (completed task)) (tasks w))
         w)).
Proof. reflexivity. Qed.

Lemma clearAll_replaces (w : World) :
  after (clearAll true) w
  = after render (after saveTasks (set_tasks [] w)).
Proof. reflexivity. Qed.

(** X16: removals, one after the other.  A second [deleteTask] of the
    same id changes nothing, in the collection, in the storage or on the
    screen; two deletions, or a deletion and [clearCompleted], give the
    same page in either order; and [clearAll] after a deletion gives
    what [clearAll] alone gives. *)
Theorem removals_compose (i j : Z) (w : World) :
  after (deleteTask true i) (after (deleteTask true i) w)
  = after (deleteTask true i) w
  /\ after (deleteTask true i) (after (deleteTask true j) w)
     = after (deleteTask true j) (after (deleteTask true i) w)
  /\ after (clearCompleted true) (after (deleteTask true i) w)
     = after (deleteTask true i) (after (clearCompleted true) w)
  /\ after (clearAll true) (after (deleteTask true i) w)
     = after (clearAll true) w.
Proof.
  split; [|split; [|split]].
  - rewrite (deleteTask_replaces i (after (deleteTask true i) w)).
    rewrite (deleteTask_replaces i w).
    rewrite replaced_twice, replaced_tasks, filter_idempotent. reflexivity.
  - rewrite (deleteTask_replaces i (after (deleteTask true j) w)).
    rewrite (deleteTask_replaces j (after (deleteTask true i) w)).
    rewrite (deleteTask_replaces j w), (deleteTask_replaces i w).
    rewrite !replaced_twice, !replaced_tasks.
    rewrite (filter_swap (fun task => negb (id task =? i))). reflexivity.
  - rewrite (clearCompleted_replaces (after (deleteTask true i) w)).
    rewrite (deleteTask_replaces i (after (clearCompleted true) w)).
    rewrite (clearCompleted_replaces w), (deleteTask_replaces i w).
    rewrite !replaced_twice, !replaced_tasks.
    rewrite (filter_swap (fun task => negb (completed task))). reflexivity.
  - rewrite (clearAll_replaces (after (deleteTask true i) w)).
    rewrite (deleteTask_replaces i w).
    rewrite replaced_twice. symmetry. apply clearAll_replaces.
Qed.
